(** * The automation engine of [octobot/automation/automation.py]

    A shallow embedding of the [Automation] tentacle: the binding pass that
    turns the stored configuration into [AutomationDetails]
    ([_create_automation_details], [_create_step]), the per-rule loop
    ([_run_automation], [_check_conditions], [_process_actions]) and the
    life cycle ([start], [stop], [restart]).

    Python code that mutates [self], logs, calls into step objects and may
    raise is written in a state-and-exception monad over the record [State].
    The step implementations, the registry of step classes, the stored
    tentacle configuration and the global enable flag are collaborators of
    the source file: they are the fields of the record [Env].  The
    declaration of the user inputs ([init_user_inputs]) is embedded as far
    as it resolves step names; the module-level statements that follow the
    class are no part of the engine and are left out. *)

From Stdlib Require Import ZArith String Ascii List Lia Permutation.
From stdpp Require Import base option list gmap strings pretty.

Local Open Scope string_scope.
Local Open Scope list_scope.
Local Open Scope Z_scope.

(** ** Exceptions *)

(** The exceptions the source can meet.  [StepFailure] stands for any
    exception deriving from [Exception] that a step raises on its own;
    [CancelledError], [KeyboardInterrupt] and [SystemExit] derive from
    [BaseException] only. *)
Inductive exn : Type :=
| KeyError (key : string)
| ValueError (literal : string)
| AttributeError (msg : string)
| DisabledError (msg : string)
| StepFailure (msg : string)
| CancelledError
| KeyboardInterrupt
| SystemExit.

(** [isinstance(err, Exception)], as tested by [except Exception]. *)
Definition is_Exception (e : exn) : bool :=
  match e with
  | CancelledError | KeyboardInterrupt | SystemExit => false
  | _ => true
  end.

(** [isinstance(err, KeyError)], as tested by [except KeyError]. *)
Definition is_KeyError (e : exn) : bool :=
  match e with
  | KeyError _ => true
  | _ => false
  end.

Inductive Outcome (A : Type) : Type :=
| Ret (a : A)
| Raise (e : exn).
Arguments Ret {A} a.
Arguments Raise {A} e.

(** ** [int(automation_id)] *)

(** Python's [int] on a [str] in base 10, for ASCII text: surrounding
    white space is stripped, one sign is allowed, then decimal digits with
    single underscores between digits.  Anything else is a [ValueError].
    (The interpreter's limit on the number of digits is not modelled.) *)
Module PyInt.

Definition is_space (c : ascii) : bool :=
  let n := nat_of_ascii c in
  ((9 <=? n) && (n <=? 13) || (n =? 32))%nat.

Definition digit_of (c : ascii) : option Z :=
  let n := nat_of_ascii c in
  if ((48 <=? n) && (n <=? 57))%nat then Some (Z.of_nat n - 48) else None.

Fixpoint lstrip (s : list ascii) : list ascii :=
  match s with
  | c :: s' => if is_space c then lstrip s' else s
  | [] => []
  end.

Definition strip (s : list ascii) : list ascii :=
  rev (lstrip (rev (lstrip s))).

(** [digits acc after_digit s]: the digits of [s] appended to the value
    [acc]; [after_digit] tells whether the previous character was a digit,
    which is where an underscore and the end of the text are allowed. *)
Fixpoint digits (acc : Z) (after_digit : bool) (s : list ascii) : option Z :=
  match s with
  | [] => if after_digit then Some acc else None
  | c :: s' =>
      match digit_of c with
      | Some d => digits (10 * acc + d) true s'
      | None =>
          if (Ascii.eqb c "_" && after_digit)%bool
          then match s' with
               | [] => None
               | _ => digits acc false s'
               end
          else None
      end
  end.

Definition parse (s : string) : option Z :=
  match strip (list_ascii_of_string s) with
  | c :: s' =>
      if Ascii.eqb c "-" then Z.opp <$> digits 0 false s'
      else if Ascii.eqb c "+" then digits 0 false s'
      else digits 0 false (c :: s')
  | [] => None
  end.

End PyInt.

(** ** Configuration *)

(** The opaque key-value configuration of one step. *)
Definition StepConfig : Type := gmap string string.

(** Keys of the tentacle configuration (class attributes of [Automation]). *)
Definition AUTOMATIONS : string := "automations".
Definition AUTOMATIONS_COUNT : string := "automations_count".
Definition TRIGGER_EVENT : string := "trigger_event".
Definition CONDITIONS : string := "conditions".
Definition ACTIONS : string := "actions".

(** One entry of the [automations] table.  It is a dict in the source; the
    three keys the engine reads are fields here, [None] for a key that is
    absent ([cfg_trigger_event] is what [.get(TRIGGER_EVENT)] returns, so
    [None] also covers a key bound to [None]); [cfg_steps] holds the nested
    sub-object of each step name. *)
Record AutomationConfig : Type := {
  cfg_trigger_event : option string;
  cfg_conditions : option (list string);
  cfg_actions : option (list string);
  cfg_steps : gmap string StepConfig
}.

(** The tentacle configuration.  [cfg_automations] keeps the insertion
    order of the dict, which is the order [.items()] iterates in. *)
Record TentacleConfig : Type := {
  cfg_automations_count : option Z;
  cfg_automations : option (list (string * AutomationConfig))
}.

(** [automation_config[key]] for one of the two list-valued keys. *)
Definition getitem {A} (key : string) (field : option A) : Outcome A :=
  match field with
  | Some v => Ret v
  | None => Raise (KeyError key)
  end.

(** [' ,'.join(names)] *)
Fixpoint join (sep : string) (names : list string) : string :=
  match names with
  | [] => ""
  | [n] => n
  | n :: rest => n ++ sep ++ join sep rest
  end.

Section Engine.

(** Everything outside the process that steps read or change. *)
Variable W : Type.

(** ** Step classes and instances *)

(** A trigger event class: its name and what one request for the next
    item of [next_event()] does: [Ret (Some tt)] is an event, [Ret None]
    the end of the generator. *)
Record TriggerClass : Type := {
  trigger_name : string;
  next_event : StepConfig -> W -> Outcome (option unit) * W
}.

Record ConditionClass : Type := {
  condition_name : string;
  evaluate : StepConfig -> W -> Outcome bool * W
}.

Record ActionClass : Type := {
  action_name : string;
  process : StepConfig -> W -> Outcome unit * W
}.

(** An instance: [step = classes[step_name]()] followed by
    [step.apply_config(config)].  Both are taken to succeed: an instance is
    its class with the configuration it was given. *)
Record Step (C : Type) : Type := {
  step_class : C;
  step_config : StepConfig
}.
Arguments step_class {C} _.
Arguments step_config {C} _.

Record AutomationDetails : Type := {
  trigger_event : Step TriggerClass;
  conditions : list (Step ConditionClass);
  actions : list (Step ActionClass)
}.

Definition trigger_get_name (t : Step TriggerClass) : string :=
  trigger_name (step_class t).
Definition condition_get_name (c : Step ConditionClass) : string :=
  condition_name (step_class c).
Definition action_get_name (a : Step ActionClass) : string :=
  action_name (step_class a).

(** [AutomationDetails.__str__] *)
Definition details_str (d : AutomationDetails) : string :=
  "Automation with " ++ trigger_get_name (trigger_event d) ++ " trigger, "
  ++ join " ," (map condition_get_name (conditions d)) ++ " conditions and "
  ++ join " ," (map action_get_name (actions d)) ++ " actions".

(** ** State *)

Inductive TaskStatus : Type :=
| Pending           (* scheduled or suspended, no cancellation requested *)
| Cancelling        (* [cancel()] was called, not yet done *)
| Finished.         (* [done()] is true *)

(** An [asyncio.Task] wrapping [self._run_automation(automation_detail)]. *)
Record Task : Type := {
  task_coro : AutomationDetails;
  task_status : TaskStatus
}.

Inductive LogRecord : Type :=
| LogInfo (msg : string)
| LogDebug (msg : string)
| LogError (msg : string)
(** [logger.exception(err, True, f"Error when running action: {err}")]:
    the exception, the flag and the literal part of the message. *)
| LogException (err : exn) (publish : bool) (msg : string).

(** What the engine does to its collaborators, in order. *)
Inductive Event : Type :=
| Logged (r : LogRecord)
| NextEvent (t : Step TriggerClass)
| Evaluate (c : Step ConditionClass)
| Process (a : Step ActionClass).

(** The first three fields are the attributes of the [Automation]
    instance; [automation_tasks] holds handles into [loop_tasks], the
    tasks of the running event loop. *)
Record State : Type := {
  automations_config : option TentacleConfig;
  automation_tasks : list nat;
  automation_details : list AutomationDetails;
  loop_tasks : list Task;
  trace : list Event;
  world : W
}.

Definition set_automations_config (c : option TentacleConfig) (s : State) : State :=
  {| automations_config := c; automation_tasks := automation_tasks s;
     automation_details := automation_details s; loop_tasks := loop_tasks s;
     trace := trace s; world := world s |}.
Definition set_automation_tasks (t : list nat) (s : State) : State :=
  {| automations_config := automations_config s; automation_tasks := t;
     automation_details := automation_details s; loop_tasks := loop_tasks s;
     trace := trace s; world := world s |}.
Definition set_automation_details (d : list AutomationDetails) (s : State) : State :=
  {| automations_config := automations_config s; automation_tasks := automation_tasks s;
     automation_details := d; loop_tasks := loop_tasks s;
     trace := trace s; world := world s |}.
Definition set_loop_tasks (t : list Task) (s : State) : State :=
  {| automations_config := automations_config s; automation_tasks := automation_tasks s;
     automation_details := automation_details s; loop_tasks := t;
     trace := trace s; world := world s |}.
Definition set_trace (t : list Event) (s : State) : State :=
  {| automations_config := automations_config s; automation_tasks := automation_tasks s;
     automation_details := automation_details s; loop_tasks := loop_tasks s;
     trace := t; world := world s |}.
Definition set_world (w : W) (s : State) : State :=
  {| automations_config := automations_config s; automation_tasks := automation_tasks s;
     automation_details := automation_details s; loop_tasks := loop_tasks s;
     trace := trace s; world := w |}.

(** ** The monad *)

Definition M (A : Type) : Type := State -> Outcome A * State.

Definition ret {A} (a : A) : M A := fun s => (Ret a, s).
Definition raise {A} (e : exn) : M A := fun s => (Raise e, s).
Definition bind {A B} (m : M A) (k : A -> M B) : M B :=
  fun s => match m s with
           | (Ret a, s') => k a s'
           | (Raise e, s') => (Raise e, s')
           end.
Definition lift {A} (o : Outcome A) : M A := fun s => (o, s).
Definition get : M State := fun s => (Ret s, s).
Definition modify (f : State -> State) : M unit := fun s => (Ret tt, f s).

(** [try: m except <class> as err: handler(err)], where [caught] tells
    the exceptions of the class. *)
Definition try_except {A} (caught : exn -> bool) (m : M A) (handler : exn -> M A) : M A :=
  fun s => match m s with
           | (Raise e, s') => if caught e then handler e s' else (Raise e, s')
           | r => r
           end.

Notation "x <- m ;; k" := (bind m (fun x => k))
  (at level 100, m at next level, right associativity).
Notation "m ;;; k" := (bind m (fun _ => k))
  (at level 100, right associativity).

Definition emit (e : Event) : M unit :=
  modify (fun s => set_trace (trace s ++ [e]) s).
Definition logger_info (msg : string) : M unit := emit (Logged (LogInfo msg)).
Definition logger_debug (msg : string) : M unit := emit (Logged (LogDebug msg)).
Definition logger_error (msg : string) : M unit := emit (Logged (LogError msg)).
Definition logger_exception (err : exn) (publish : bool) (msg : string) : M unit :=
  emit (Logged (LogException err publish msg)).

(** A call into a step: recorded in the trace, then run on the world. *)
Definition call {A} (e : Event) (f : W -> Outcome A * W) : M A :=
  emit e ;;;
  fun s => let '(r, w) := f (world s) in (r, set_world w s).

(** ** Collaborators *)

Record Env : Type := {
  (** [constants.ENABLE_AUTOMATIONS] *)
  ENABLE_AUTOMATIONS : bool;
  (** [_all_possible_steps(base_step)] for the three base classes *)
  trigger_classes : list TriggerClass;
  condition_classes : list ConditionClass;
  action_classes : list ActionClass;
  (** [tentacles_manager_api.get_tentacle_config(...)] *)
  stored_config : TentacleConfig;
  (** [load_and_save_user_inputs(bot_id)], inherited from
      [AbstractTentacle] *)
  load_and_save_user_inputs : State -> Outcome unit * State
}.

Variable env : Env.

(** A [for] loop whose body may raise. *)
Fixpoint for_each {A} (body : A -> M unit) (l : list A) : M unit :=
  match l with
  | [] => ret tt
  | a :: l' => body a ;;; for_each body l'
  end.

(** ** The registry snapshot *)

(** [{c.get_name(): c for c in classes}]: a later class of the same name
    replaces an earlier one. *)
Definition by_name {C} (get_name : C -> string) (classes : list C) : gmap string C :=
  foldl (fun m c => <[get_name c := c]> m) ∅ classes.

Definition get_all_steps
  : gmap string TriggerClass * gmap string ConditionClass * gmap string ActionClass :=
  (by_name trigger_name (trigger_classes env),
   by_name condition_name (condition_classes env),
   by_name action_name (action_classes env)).

(** ** The binding pass *)

Definition _is_valid_automation_config (automation_config : AutomationConfig) : bool :=
  bool_decide (cfg_trigger_event automation_config ≠ None).

Definition _create_step {C} (automations_config : AutomationConfig)
    (step_name : string) (classes : gmap string C) : M (Step C) :=
  match classes !! step_name with
  | Some cls =>
      ret {| step_class := cls;
             step_config := default ∅ (cfg_steps automations_config !! step_name) |}
  | None => raise (KeyError step_name)
  end.

(** A list comprehension whose element expression may raise. *)
Fixpoint comprehension {A B} (f : A -> M B) (l : list A) : M (list B) :=
  match l with
  | [] => ret []
  | a :: l' => b <- f a ;; bs <- comprehension f l' ;; ret (b :: bs)
  end.

Definition py_int (s : string) : M Z :=
  match PyInt.parse s with
  | Some n => ret n
  | None => raise (ValueError s)
  end.

(** The [for] loop of [_create_automation_details] over the items that
    remain; [return] ends the pass, [continue] goes on with the rest. *)
Fixpoint _create_automation_details_loop
    (all_events : gmap string TriggerClass)
    (all_conditions : gmap string ConditionClass)
    (all_actions : gmap string ActionClass)
    (automations_count : Z)
    (items : list (string * AutomationConfig)) : M unit :=
  match items with
  | [] => ret tt
  | (automation_id, automation_config) :: rest =>
      n <- py_int automation_id ;;
      if n >? automations_count then ret tt
      else if negb (_is_valid_automation_config automation_config)
      then _create_automation_details_loop
             all_events all_conditions all_actions automations_count rest
      else
        trigger_name <- lift (getitem TRIGGER_EVENT (cfg_trigger_event automation_config)) ;;
        event <- _create_step automation_config trigger_name all_events ;;
        condition_names <- lift (getitem CONDITIONS (cfg_conditions automation_config)) ;;
        conditions <- comprehension
                        (fun condition => _create_step automation_config condition all_conditions)
                        condition_names ;;
        action_names <- lift (getitem ACTIONS (cfg_actions automation_config)) ;;
        actions <- comprehension
                     (fun action => _create_step automation_config action all_actions)
                     action_names ;;
        modify (fun s => set_automation_details
                           (automation_details s
                              ++ [{| trigger_event := event;
                                     conditions := conditions;
                                     actions := actions |}]) s) ;;;
        _create_automation_details_loop
          all_events all_conditions all_actions automations_count rest
  end.

(** [self.automations_config.get(key, default)]; the attribute is [None]
    until a configuration is given or loaded. *)
Definition config_get {A} (field : TentacleConfig -> option A) (dflt : A) : M A :=
  s <- get ;;
  match automations_config s with
  | Some cfg => ret (default dflt (field cfg))
  | None => raise (AttributeError "'NoneType' object has no attribute 'get'")
  end.

Definition _create_automation_details : M unit :=
  let '(all_events, all_conditions, all_actions) := get_all_steps in
  automations_count <- config_get cfg_automations_count 0 ;;
  items <- config_get cfg_automations [] ;;
  _create_automation_details_loop
    all_events all_conditions all_actions automations_count items.

(** ** Declaring the user inputs of the steps *)

(** [_apply_user_inputs]: the steps named have their user inputs
    declared; a name that no class has is logged and passed over.
    [_apply_step_user_inputs] only calls into the step class and the
    user-input factory: it is a parameter. *)
Definition _apply_user_inputs {C}
    (_apply_step_user_inputs : string -> C -> string -> M unit)
    (step_names : list string) (step_classes_by_name : gmap string C)
    (automation_id : string) : M unit :=
  for_each
    (fun step_name =>
       try_except is_KeyError
         (match step_classes_by_name !! step_name with
          | Some step_class => _apply_step_user_inputs step_name step_class automation_id
          | None => raise (KeyError step_name)
          end)
         (fun _ => logger_error ("Automation step not found: " ++ step_name ++ " (ignored)")))
    step_names.

(** ** The loop of one rule *)

Definition trigger_next (t : Step TriggerClass) : M (option unit) :=
  call (NextEvent t) (next_event (step_class t) (step_config t)).
Definition condition_evaluate (c : Step ConditionClass) : M bool :=
  call (Evaluate c) (evaluate (step_class c) (step_config c)).
Definition action_process (a : Step ActionClass) : M unit :=
  call (Process a) (process (step_class a) (step_config a)).

(** The [for] loop of [_check_conditions] over the conditions that
    remain.  The second [debug] call belongs to the loop body: it runs
    after each condition that holds. *)
Fixpoint _check_conditions_loop (automation_detail : AutomationDetails)
    (remaining : list (Step ConditionClass)) : M bool :=
  match remaining with
  | [] => ret true
  | condition :: rest =>
      ok <- condition_evaluate condition ;;
      if negb ok then
        logger_debug (condition_get_name condition ++ " is not valid: skipping "
                      ++ trigger_get_name (trigger_event automation_detail) ++ " event") ;;;
        ret false
      else
        logger_debug ("All conditions are valid for "
                      ++ trigger_get_name (trigger_event automation_detail)
                      ++ " event trigger") ;;;
        _check_conditions_loop automation_detail rest
  end.

Definition _check_conditions (automation_detail : AutomationDetails) : M bool :=
  _check_conditions_loop automation_detail (conditions automation_detail).

Fixpoint _process_actions_loop (automation_detail : AutomationDetails)
    (remaining : list (Step ActionClass)) : M unit :=
  match remaining with
  | [] => ret tt
  | action :: rest =>
      try_except is_Exception
        (logger_debug ("Running " ++ action_get_name action ++ " after "
                       ++ trigger_get_name (trigger_event automation_detail) ++ " event") ;;;
         action_process action)
        (fun err => logger_exception err true "Error when running action: ") ;;;
      _process_actions_loop automation_detail rest
  end.

Definition _process_actions (automation_detail : AutomationDetails) : M unit :=
  _process_actions_loop automation_detail (actions automation_detail).

(** The body of the [async for] of [_run_automation]: what is done for
    one event of the trigger. *)
Definition _run_automation_body (automation_detail : AutomationDetails) : M unit :=
  logger_debug (trigger_get_name (trigger_event automation_detail) ++ " event triggered") ;;;
  ok <- _check_conditions automation_detail ;;
  if ok then _process_actions automation_detail else ret tt.

(** How far a coroutine got. *)
Inductive Progress : Type :=
| Returned               (* the generator ended, the coroutine returned *)
| Failed (e : exn)       (* an exception left the coroutine *)
| Waiting.               (* still in the loop when the fuel ran out *)

(** The [async for]: at most [fuel] requests to the trigger. *)
Fixpoint _run_automation_loop (fuel : nat) (automation_detail : AutomationDetails)
    (s : State) : Progress * State :=
  match fuel with
  | O => (Waiting, s)
  | S fuel' =>
      match trigger_next (trigger_event automation_detail) s with
      | (Ret (Some _), s1) =>
          match _run_automation_body automation_detail s1 with
          | (Ret _, s2) => _run_automation_loop fuel' automation_detail s2
          | (Raise e, s2) => (Failed e, s2)
          end
      | (Ret None, s1) => (Returned, s1)
      | (Raise e, s1) => (Failed e, s1)
      end
  end.

Definition _run_automation (fuel : nat) (automation_detail : AutomationDetails)
    (s : State) : Progress * State :=
  match logger_info ("Starting " ++ details_str automation_detail ++ " automation") s with
  | (Ret _, s1) => _run_automation_loop fuel automation_detail s1
  | (Raise e, s1) => (Failed e, s1)
  end.

(** ** Tasks *)

(** [asyncio.create_task(self._run_automation(automation_detail))]: the
    new task joins the tasks of the loop; its handle is its position. *)
Definition create_task (automation_detail : AutomationDetails) : M nat :=
  s <- get ;;
  modify (set_loop_tasks
            (loop_tasks s ++ [{| task_coro := automation_detail;
                                 task_status := Pending |}])) ;;;
  ret (length (loop_tasks s)).

(** [task.done()] *)
Definition task_done (task : nat) : M bool :=
  s <- get ;;
  match loop_tasks s !! task with
  | Some t => ret (match task_status t with Finished => true | _ => false end)
  | None => ret true
  end.

Definition request_cancel (t : Task) : Task :=
  match task_status t with
  | Finished => t
  | _ => {| task_coro := task_coro t; task_status := Cancelling |}
  end.

(** [task.cancel()]: a request; the task is done only once the event
    loop has run it again. *)
Definition task_cancel (task : nat) : M unit :=
  modify (fun s => set_loop_tasks (alter request_cancel task (loop_tasks s)) s).

(** ** Life cycle *)

Definition start : M unit :=
  _create_automation_details ;;;
  s <- get ;;
  tasks <- comprehension create_task (automation_details s) ;;
  modify (set_automation_tasks tasks) ;;;
  s' <- get ;;
  match automation_details s' with
  | [] => logger_debug "No automation to start"
  | _ => ret tt
  end.

Definition stop : M unit :=
  s <- get ;;
  match automation_tasks s with
  | [] => ret tt
  | tasks =>
      logger_debug "Stopping automation tasks" ;;;
      for_each (fun task =>
                  done <- task_done task ;;
                  if negb done then task_cancel task else ret tt)
               tasks
  end.

Definition restart : M unit :=
  if negb (ENABLE_AUTOMATIONS env)
  then raise (DisabledError "Automations are disabled")
  else
    stop ;;;
    modify (set_automations_config (Some (stored_config env))) ;;;
    load_and_save_user_inputs env ;;;
    start.

Definition initialize : M unit :=
  if ENABLE_AUTOMATIONS env then restart
  else logger_info "Automations are disabled".

(** ** The event loop *)

Definition finish (t : Task) : Task :=
  {| task_coro := task_coro t; task_status := Finished |}.

(** What the event loop can do to a task between two calls of the life
    cycle: run the coroutine of a pending task until it returns or
    raises, or deliver the cancellation that was requested. *)
Inductive loop_step : State -> State -> Prop :=
| task_ends h t fuel r s s' :
    loop_tasks s !! h = Some t ->
    task_status t = Pending ->
    _run_automation fuel (task_coro t) s = (r, s') ->
    r <> Waiting ->
    loop_step s (set_loop_tasks (alter finish h (loop_tasks s')) s')
| task_cancelled h t s :
    loop_tasks s !! h = Some t ->
    task_status t = Cancelling ->
    loop_step s (set_loop_tasks (alter finish h (loop_tasks s)) s).

Inductive loop_steps : State -> State -> Prop :=
| loop_steps_refl s : loop_steps s s
| loop_steps_step s1 s2 s3 : loop_step s1 s2 -> loop_steps s2 s3 -> loop_steps s1 s3.

End Engine.

Arguments Build_TriggerClass {W}.
Arguments trigger_name {W}.
Arguments next_event {W}.
Arguments Build_ConditionClass {W}.
Arguments condition_name {W}.
Arguments evaluate {W}.
Arguments Build_ActionClass {W}.
Arguments action_name {W}.
Arguments process {W}.
Arguments step_class {C}.
Arguments step_config {C}.
Arguments Build_AutomationDetails {W}.
Arguments trigger_event {W}.
Arguments conditions {W}.
Arguments actions {W}.
Arguments trigger_get_name {W}.
Arguments condition_get_name {W}.
Arguments action_get_name {W}.
Arguments details_str {W}.
Arguments Build_Task {W}.
Arguments task_coro {W}.
Arguments task_status {W}.
Arguments NextEvent {W}.
Arguments Evaluate {W}.
Arguments Process {W}.
Arguments Logged {W}.
Arguments Build_State {W}.
Arguments automations_config {W}.
Arguments automation_tasks {W}.
Arguments automation_details {W}.
Arguments loop_tasks {W}.
Arguments trace {W}.
Arguments world {W}.
Arguments set_automations_config {W}.
Arguments set_automation_tasks {W}.
Arguments set_automation_details {W}.
Arguments set_loop_tasks {W}.
Arguments set_trace {W}.
Arguments set_world {W}.
Arguments ret {W A}.
Arguments raise {W A}.
Arguments bind {W A B}.
Arguments lift {W A}.
Arguments get {W}.
Arguments modify {W}.
Arguments try_except {W A}.
Arguments emit {W}.
Arguments logger_info {W}.
Arguments logger_debug {W}.
Arguments logger_error {W}.
Arguments logger_exception {W}.
Arguments call {W A}.
Arguments Build_Env {W}.
Arguments ENABLE_AUTOMATIONS {W}.
Arguments trigger_classes {W}.
Arguments condition_classes {W}.
Arguments action_classes {W}.
Arguments stored_config {W}.
Arguments load_and_save_user_inputs {W}.
Arguments get_all_steps {W}.
Arguments _create_step {W C}.
Arguments comprehension {W A B}.
Arguments py_int {W}.
Arguments _create_automation_details_loop {W}.
Arguments config_get {W A}.
Arguments _create_automation_details {W}.
Arguments _apply_user_inputs {W C}.
Arguments trigger_next {W}.
Arguments condition_evaluate {W}.
Arguments action_process {W}.
Arguments _check_conditions_loop {W}.
Arguments _check_conditions {W}.
Arguments _process_actions_loop {W}.
Arguments _process_actions {W}.
Arguments _run_automation_body {W}.
Arguments _run_automation_loop {W}.
Arguments _run_automation {W}.
Arguments create_task {W}.
Arguments task_done {W}.
Arguments request_cancel {W}.
Arguments task_cancel {W}.
Arguments for_each {W A}.
Arguments start {W}.
Arguments stop {W}.
Arguments restart {W}.
Arguments initialize {W}.
Arguments finish {W}.
Arguments loop_step {W}.
Arguments loop_steps {W}.
Arguments task_ends {W}.
Arguments task_cancelled {W}.
Arguments loop_steps_refl {W}.
Arguments loop_steps_step {W}.

Notation "x <- m ;; k" := (bind m (fun x => k))
  (at level 100, m at next level, right associativity).
Notation "m ;;; k" := (bind m (fun _ => k))
  (at level 100, right associativity).

(** ** What a pass binds, as pure functions *)

(** [_create_step] when the name resolves. *)
Definition resolve {C} (automation_config : AutomationConfig)
    (classes : gmap string C) (step_name : string) : option (Step C) :=
  cls ← classes !! step_name;
  Some {| step_class := cls;
          step_config := default ∅ (cfg_steps automation_config !! step_name) |}.

(** The rule of one entry whose keys are all present and whose names all
    resolve. *)
Definition bound_rule {W} (env : Env W) (automation_config : AutomationConfig)
    : option (AutomationDetails W) :=
  let '(all_events, all_conditions, all_actions) := get_all_steps env in
  trigger_name ← cfg_trigger_event automation_config;
  event ← resolve automation_config all_events trigger_name;
  condition_names ← cfg_conditions automation_config;
  conditions ← mapM (resolve automation_config all_conditions) condition_names;
  action_names ← cfg_actions automation_config;
  actions ← mapM (resolve automation_config all_actions) action_names;
  Some {| trigger_event := event; conditions := conditions; actions := actions |}.

(** The entry has a numeric id that does not exceed the count. *)
Definition within (automations_count : Z) (item : string * AutomationConfig) : bool :=
  match PyInt.parse (fst item) with
  | Some n => negb (n >? automations_count)
  | None => false
  end.

(** The entry has a numeric id that exceeds the count. *)
Definition beyond (automations_count : Z) (item : string * AutomationConfig) : bool :=
  match PyInt.parse (fst item) with
  | Some n => n >? automations_count
  | None => false
  end.

(** The entries in front of the first one that is not [within] the count. *)
Fixpoint reached (automations_count : Z) (items : list (string * AutomationConfig))
    : list (string * AutomationConfig) :=
  match items with
  | [] => []
  | item :: rest =>
      if within automations_count item
      then item :: reached automations_count rest
      else []
  end.

Definition has_trigger (item : string * AutomationConfig) : bool :=
  _is_valid_automation_config (snd item).

(** The numeric ids of the entries are in ascending order. *)
Fixpoint ascending (items : list (string * AutomationConfig)) : Prop :=
  match items with
  | [] => True
  | item :: rest =>
      Forall (fun later =>
                match PyInt.parse (fst item), PyInt.parse (fst later) with
                | Some n, Some m => n < m
                | _, _ => False
                end) rest
      /\ ascending rest
  end.

(** The events of a trace that are calls of [evaluate()], of [process()],
    and the exceptions given to [logger.exception]. *)
Definition evaluated {W} (events : list (Event W)) : list (Step (ConditionClass W)) :=
  omap (fun e => match e with Evaluate c => Some c | _ => None end) events.
Definition processed {W} (events : list (Event W)) : list (Step (ActionClass W)) :=
  omap (fun e => match e with Process a => Some a | _ => None end) events.
Definition logged_exceptions {W} (events : list (Event W)) : list exn :=
  omap (fun e => match e with Logged (LogException err _ _) => Some err | _ => None end)
       events.

(** The exceptions that the actions raise when they are run one after the
    other from the world [w]. *)
Fixpoint raised_by {W} (remaining : list (Step (ActionClass W))) (w : W) : list exn :=
  match remaining with
  | [] => []
  | action :: rest =>
      match process (step_class action) (step_config action) w with
      | (Ret _, w') => raised_by rest w'
      | (Raise e, w') => e :: raised_by rest w'
      end
  end.

(** The loop of the pass with the registry snapshot of [env]. *)
Definition pass_loop {W} (env : Env W) (automations_count : Z)
    (items : list (string * AutomationConfig)) : M W unit :=
  let '(all_events, all_conditions, all_actions) := get_all_steps env in
  _create_automation_details_loop
    all_events all_conditions all_actions automations_count items.

(** [self.automation_details] grown by [rules]. *)
Definition add_rules {W} (rules : list (AutomationDetails W)) (s : State W) : State W :=
  set_automation_details (automation_details s ++ rules) s.

(** The binding pass as the specification words it: it binds one rule for
    each entry that has a trigger and an id within the count, whatever else
    the table holds, and the rules come in ascending order of the ids. *)
Definition binds_valid_entries_in_id_order {W} (env : Env W) (s : State W) : Prop :=
  forall cfg, automations_config s = Some cfg ->
    let count := default 0 (cfg_automations_count cfg) in
    let items := default [] (cfg_automations cfg) in
    exists entries rules,
      Permutation entries
        (List.filter (fun item => within count item && has_trigger item) items)
      /\ ascending entries
      /\ Forall2 (fun item rule => bound_rule env (snd item) = Some rule) entries rules
      /\ _create_automation_details env s = (Ret tt, add_rules rules s).

(** The entry has a trigger and lacks the conditions or the actions. *)
Definition lacks_steps (automation_config : AutomationConfig) : bool :=
  bool_decide (cfg_trigger_event automation_config ≠ None)
  && (bool_decide (cfg_conditions automation_config = None)
      || bool_decide (cfg_actions automation_config = None)).

(** The pass on a table with an entry that [lacks_steps], as the
    specification words it: whichever entry that is, a [KeyError] leaves
    the pass. *)
Definition bare_entry_raises_KeyError {W} (env : Env W) (s : State W) : Prop :=
  forall cfg item,
    automations_config s = Some cfg ->
    item ∈ default [] (cfg_automations cfg) ->
    lacks_steps (snd item) = true ->
    exists key, fst (_create_automation_details env s) = Raise (KeyError key).

(** The state after an event was recorded, and after a call into a step
    that left the world [w]. *)
Definition after_emit {W} (e : Event W) (s : State W) : State W :=
  set_trace (trace s ++ [e]) s.
Definition after_call {W} (e : Event W) (w : W) (s : State W) : State W :=
  set_world w (after_emit e s).

(** The messages of the loop. *)
Definition event_triggered {W} (d : AutomationDetails W) : Event W :=
  Logged (LogDebug (trigger_get_name (trigger_event d) ++ " event triggered")).
Definition condition_valid {W} (d : AutomationDetails W) : Event W :=
  Logged (LogDebug ("All conditions are valid for "
                    ++ trigger_get_name (trigger_event d) ++ " event trigger")).
Definition condition_not_valid {W} (d : AutomationDetails W)
    (c : Step (ConditionClass W)) : Event W :=
  Logged (LogDebug (condition_get_name c ++ " is not valid: skipping "
                    ++ trigger_get_name (trigger_event d) ++ " event")).
Definition running_action {W} (d : AutomationDetails W)
    (a : Step (ActionClass W)) : Event W :=
  Logged (LogDebug ("Running " ++ action_get_name a ++ " after "
                    ++ trigger_get_name (trigger_event d) ++ " event")).
Definition action_error {W} (err : exn) : Event W :=
  Logged (LogException err true "Error when running action: ").

(** Whatever [process()] of the action raises derives from [Exception]. *)
Definition raises_only_Exception {W} (a : Step (ActionClass W)) : Prop :=
  forall w e w', process (step_class a) (step_config a) w = (Raise e, w') ->
                 is_Exception e = true.

(** The attributes of the automation and the tasks of the loop are the
    same in both states. *)
Definition same_attributes {W} (s s' : State W) : Prop :=
  automations_config s' = automations_config s
  /\ automation_tasks s' = automation_tasks s
  /\ automation_details s' = automation_details s
  /\ loop_tasks s' = loop_tasks s.

(** ** Tasks and rules *)

(** No task of [automation_tasks] is still running without a cancellation
    request: the state [stop()] leaves behind. *)
Definition stopped {W} (s : State W) : Prop :=
  forall h t, h ∈ automation_tasks s -> loop_tasks s !! h = Some t ->
              task_status t <> Pending.

(** Each rule of [automation_details] has its own task in
    [automation_tasks], and that task is not done. *)
Definition one_live_loop_per_rule {W} (s : State W) : Prop :=
  Forall2 (fun h d => exists t, loop_tasks s !! h = Some t
                                /\ task_coro t = d /\ task_status t <> Finished)
          (automation_tasks s) (automation_details s).

(** The effect of [stop()] on the tasks of the loop. *)
Definition cancel_all {W} (handles : list nat) (tasks : list (Task W)) : list (Task W) :=
  foldl (fun ts h => alter request_cancel h ts) tasks handles.

(** The task that [create_task] makes for a rule. *)
Definition new_task {W} (d : AutomationDetails W) : Task W :=
  {| task_coro := d; task_status := Pending |}.

(** The state [stop()] leaves when [automation_tasks] is not empty. *)
Definition stopping {W} (s : State W) : State W :=
  let s1 := after_emit (Logged (LogDebug "Stopping automation tasks")) s in
  set_loop_tasks (cancel_all (automation_tasks s) (loop_tasks s1)) s1.

(** The rule on loops as the specification words it: from [start()] on,
    whatever the event loop does to the tasks, each rule has its one live
    loop. *)
Definition always_one_live_loop_per_rule {W} (env : Env W) (s : State W) : Prop :=
  forall s1 s2, start env s = (Ret tt, s1) -> loop_steps s1 s2 ->
                one_live_loop_per_rule s2.

(** ** Further notions *)

(** The rule carries what the entry configures: the names of the entry, in
    their order, and for each step the sub-object of its name, or an empty
    configuration. *)
Definition step_as_configured {C} (get_name : C -> string)
    (automation_config : AutomationConfig) (step : Step C) : Prop :=
  step_config step
  = default ∅ (cfg_steps automation_config !! get_name (step_class step)).

Definition configured_as {W} (automation_config : AutomationConfig)
    (rule : AutomationDetails W) : Prop :=
  cfg_trigger_event automation_config = Some (trigger_get_name (trigger_event rule))
  /\ cfg_conditions automation_config = Some (map condition_get_name (conditions rule))
  /\ cfg_actions automation_config = Some (map action_get_name (actions rule))
  /\ step_as_configured trigger_name automation_config (trigger_event rule)
  /\ Forall (step_as_configured condition_name automation_config) (conditions rule)
  /\ Forall (step_as_configured action_name automation_config) (actions rule).

(** The record that [_apply_user_inputs] logs for a name without class. *)
Definition step_not_found {W} (step_name : string) : Event W :=
  Logged (LogError ("Automation step not found: " ++ step_name ++ " (ignored)")).

(** The messages given to [logger.error], in order. *)
Definition logged_errors {W} (events : list (Event W)) : list string :=
  omap (fun e => match e with Logged (LogError msg) => Some msg | _ => None end) events.

(** The state [start()] leaves when the pass has ended normally in [s1]:
    one new task for each rule, their handles in [automation_tasks]. *)
Definition started {W} (s1 : State W) : State W :=
  let s2 :=
    set_automation_tasks
      (seq (length (loop_tasks s1)) (length (automation_details s1)))
      (set_loop_tasks (loop_tasks s1 ++ map new_task (automation_details s1)) s1) in
  match automation_details s1 with
  | [] => after_emit (Logged (LogDebug "No automation to start")) s2
  | _ => s2
  end.

(** The state that [restart()] hands to [load_and_save_user_inputs]:
    [stop()] has run and [automations_config] is the stored configuration. *)
Definition reloading {W} (env : Env W) (s : State W) : State W :=
  set_automations_config (Some (stored_config env)) (snd (stop s)).

(** [reset_config]: [update_tentacle_config] is given a count of 0 and an
    empty table; this is the stored configuration from then on. *)
Definition reset_config {W} (env : Env W) : Env W :=
  {| ENABLE_AUTOMATIONS := ENABLE_AUTOMATIONS env;
     trigger_classes := trigger_classes env;
     condition_classes := condition_classes env;
     action_classes := action_classes env;
     stored_config := {| cfg_automations_count := Some 0;
                         cfg_automations := Some [] |};
     load_and_save_user_inputs := load_and_save_user_inputs env |}.




(** ** A small installation *)

Module Example.

(** The world counts the notifications sent. *)
Definition World : Type := nat.

Definition PeriodicCheck : TriggerClass World :=
  {| trigger_name := "PeriodicCheck";
     next_event := fun _ w => (Ret (Some tt), w) |}.

Definition NoCondition : ConditionClass World :=
  {| condition_name := "NoCondition";
     evaluate := fun _ w => (Ret true, w) |}.

Definition NeverCondition : ConditionClass World :=
  {| condition_name := "NeverCondition";
     evaluate := fun _ w => (Ret false, w) |}.

Definition BrokenCondition : ConditionClass World :=
  {| condition_name := "BrokenCondition";
     evaluate := fun _ w => (Raise (StepFailure "no data"), w) |}.

Definition SendNotification : ActionClass World :=
  {| action_name := "SendNotification";
     process := fun _ w => (Ret tt, S w) |}.

Definition FailingAction : ActionClass World :=
  {| action_name := "FailingAction";
     process := fun _ w => (Raise (StepFailure "boom"), w) |}.

Definition env_with (enabled : bool) (config : TentacleConfig) : Env World :=
  {| ENABLE_AUTOMATIONS := enabled;
     trigger_classes := [PeriodicCheck];
     condition_classes := [NoCondition; NeverCondition; BrokenCondition];
     action_classes := [SendNotification; FailingAction];
     stored_config := config;
     load_and_save_user_inputs := fun s => (Ret tt, set_automation_details [] s) |}.

Definition entry (trigger : option string) (conds acts : option (list string))
    : AutomationConfig :=
  {| cfg_trigger_event := trigger; cfg_conditions := conds;
     cfg_actions := acts; cfg_steps := ∅ |}.

Definition notify : AutomationConfig :=
  entry (Some "PeriodicCheck") (Some ["NoCondition"]) (Some ["SendNotification"]).

Definition config (count : Z) (items : list (string * AutomationConfig))
    : TentacleConfig :=
  {| cfg_automations_count := Some count; cfg_automations := Some items |}.

(** A fresh [Automation] holding [config]. *)
Definition fresh (c : TentacleConfig) : State World :=
  {| automations_config := Some c; automation_tasks := [];
     automation_details := []; loop_tasks := []; trace := []; world := O |}.

Definition env : Env World := env_with true (config 0 []).

Definition step {C} (cls : C) : Step C :=
  {| step_class := cls; step_config := ∅ |}.

(** The rule that [notify] binds to. *)
Definition notify_rule : AutomationDetails World :=
  {| trigger_event := step PeriodicCheck;
     conditions := [step NoCondition];
     actions := [step SendNotification] |}.

(** Rule "1" names a trigger that no class has; rule "2" is sound. *)
Definition ghost_trigger : TentacleConfig :=
  config 2 [("1", entry (Some "Ghost") (Some []) (Some [])); ("2", notify)].

(** The one rule lists a condition that no class has. *)
Definition ghost_condition : TentacleConfig :=
  config 1 [("1", entry (Some "PeriodicCheck") (Some ["Ghost"; "NoCondition"])
                        (Some ["SendNotification"]))].

(** The entry beyond the count is stored in front of the one within it. *)
Definition beyond_first : TentacleConfig :=
  config 1 [("2", notify); ("1", notify)].

(** Both entries are within the count, stored in descending order. *)
Definition descending : TentacleConfig :=
  config 2 [("2", entry (Some "PeriodicCheck") (Some []) (Some ["SendNotification"]));
            ("1", entry (Some "PeriodicCheck") (Some []) (Some ["FailingAction"]))].

(** An entry with a trigger and nothing else, beyond the count. *)
Definition bare_beyond : TentacleConfig :=
  config 0 [("1", entry (Some "PeriodicCheck") None None)].

(** An entry with a trigger and nothing else, within the count, after a
    sound rule and in front of another. *)
Definition bare_within : TentacleConfig :=
  config 3 [("1", notify); ("2", entry (Some "PeriodicCheck") None None); ("3", notify)].

(** A sound rule, an entry without a trigger, an entry beyond the count
    and, after it, an entry that names no known trigger. *)
Definition mixed : TentacleConfig :=
  config 2 [("1", notify); ("2", entry None None None); ("3", notify);
            ("4", entry (Some "Ghost") None None)].

Definition broken_rule : AutomationDetails World :=
  {| trigger_event := step PeriodicCheck;
     conditions := [step BrokenCondition];
     actions := [step SendNotification] |}.

Definition never_rule : AutomationDetails World :=
  {| trigger_event := step PeriodicCheck;
     conditions := [step NoCondition; step NeverCondition; step BrokenCondition];
     actions := [step SendNotification] |}.


Definition broken_config : TentacleConfig :=
  config 1 [("1", entry (Some "PeriodicCheck") (Some ["BrokenCondition"])
                        (Some ["SendNotification"]))].

Definition disabled_env : Env World := env_with false (config 0 []).

(** An automation with nothing configured, and the state in which its
    trigger has just produced an event. *)
Definition idle : State World := fresh (config 0 []).
Definition fired : State World := snd (trigger_next (step PeriodicCheck) idle).

(** The automation of [descending] once started: two loops run. *)
Definition running : State World := snd (start env (fresh descending)).

(** An action during which the task is cancelled. *)
Definition CancelledAction : ActionClass World :=
  {| action_name := "CancelledAction";
     process := fun _ w => (Raise CancelledError, w) |}.

Definition cancelled_rule : AutomationDetails World :=
  {| trigger_event := step PeriodicCheck;
     conditions := [step NoCondition];
     actions := [step FailingAction; step CancelledAction; step SendNotification] |}.

(** The declaration of the user inputs of one step, when it has none. *)
Definition no_user_inputs {C} (step_name : string) (step_class : C)
    (automation_id : string) : M World unit :=
  ret tt.

(** Installations whose stored configuration has two sound rules, and a
    rule with an unknown trigger. *)
Definition stored_descending : Env World := env_with true descending.
Definition stored_ghost : Env World := env_with true ghost_trigger.

(** The conditions of the installation, by name. *)
Definition all_conditions : gmap string (ConditionClass World) :=
  by_name condition_name (condition_classes env).

(** A sound rule, then an entry whose key is no number, then a sound
    rule. *)
Definition odd_key : TentacleConfig :=
  config 3 [("1", notify); ("two", notify); ("3", notify)].

End Example.

(** * Properties *)

(** Enters the body of the loop for an entry whose id parses ([Hid]) to a
    number within the count ([Hn]) and that has a trigger ([Htrig]). *)
Ltac enter_entry Hid Hn Htrig :=
  unfold bind at 1, py_int; rewrite Hid; simpl; unfold ret at 1; rewrite Hn;
  unfold _is_valid_automation_config; rewrite Htrig; simpl;
  unfold bind, lift; simpl.

Section Binder.

Context {W : Type} (env : Env W).

Implicit Types (s : State W) (item : string * AutomationConfig)
         (items : list (string * AutomationConfig)).

Lemma add_rules_nil s : add_rules [] s = s.
Proof. destruct s; unfold add_rules, set_automation_details; simpl. by rewrite app_nil_r. Qed.

Lemma add_rules_app r1 r2 s : add_rules r2 (add_rules r1 s) = add_rules (r1 ++ r2) s.
Proof. destruct s; unfold add_rules, set_automation_details; simpl. by rewrite app_assoc. Qed.

Lemma create_step_resolved {C} cfg (classes : gmap string C) name step s :
  resolve cfg classes name = Some step ->
  _create_step cfg name classes s = (Ret step, s).
Proof.
  unfold resolve, _create_step. destruct (classes !! name); simpl; [|done].
  by intros [= <-].
Qed.

Lemma create_step_unresolved {C} cfg (classes : gmap string C) name s :
  resolve cfg classes name = None ->
  _create_step cfg name classes s = (Raise (KeyError name), s).
Proof.
  unfold resolve, _create_step. by destruct (classes !! name).
Qed.

Lemma comprehension_resolved {C} cfg (classes : gmap string C) names steps s :
  mapM (resolve cfg classes) names = Some steps ->
  comprehension (fun name => _create_step cfg name classes) names s = (Ret steps, s).
Proof.
  revert steps. induction names as [|name names IH]; intros steps; simpl.
  - by intros [= <-].
  - destruct (resolve cfg classes name) as [step|] eqn:Hstep; simpl; [|done].
    destruct (mapM (resolve cfg classes) names) as [steps'|] eqn:Hrest; simpl; [|done].
    intros [= <-]. unfold bind.
    rewrite (create_step_resolved _ _ _ _ _ Hstep).
    by rewrite (IH _ eq_refl).
Qed.

(** A name that does not resolve makes the comprehension raise the
    [KeyError] of the first such name, with no effect on the state. *)
Lemma comprehension_unresolved {C} cfg (classes : gmap string C) names s :
  mapM (resolve cfg classes) names = None ->
  exists name, name ∈ names /\ classes !! name = None
    /\ comprehension (fun name => _create_step cfg name classes) names s
       = (Raise (KeyError name), s).
Proof.
  induction names as [|name names IH]; simpl; [done|].
  destruct (resolve cfg classes name) as [step|] eqn:Hstep; simpl.
  - destruct (mapM (resolve cfg classes) names) as [steps'|] eqn:Hrest; simpl; [done|].
    intros _. destruct (IH eq_refl) as (k & Hin & Hk & Hrun).
    exists k. split; [by right|]. split; [done|].
    unfold bind. rewrite (create_step_resolved _ _ _ _ _ Hstep).
    by rewrite Hrun.
  - intros _. exists name. split; [by left|]. split.
    + unfold resolve in Hstep. by destruct (classes !! name).
    + unfold bind. by rewrite (create_step_unresolved _ _ _ _ Hstep).
Qed.

Lemma within_parse count item :
  within count item = true ->
  exists n, PyInt.parse (fst item) = Some n /\ (n >? count) = false.
Proof.
  unfold within. destruct (PyInt.parse (fst item)) as [n|]; [|done].
  intros H. exists n. split; [done|]. by destruct (n >? count).
Qed.

(** An entry beyond the count ends the pass: [return]. *)
Lemma pass_loop_beyond count item rest s :
  beyond count item = true ->
  pass_loop env count (item :: rest) s = (Ret tt, s).
Proof.
  destruct item as [id cfg]. unfold beyond, pass_loop; simpl.
  destruct (PyInt.parse id) as [n|] eqn:Hid; [|done]. intros Hn.
  unfold bind, py_int. rewrite Hid. simpl. unfold ret. by rewrite Hn.
Qed.

(** An entry whose id is not a number makes [int()] raise. *)
Lemma pass_loop_not_numeric count id cfg rest s :
  PyInt.parse id = None ->
  pass_loop env count ((id, cfg) :: rest) s = (Raise (ValueError id), s).
Proof.
  intros Hid. unfold pass_loop; simpl. unfold bind, py_int. by rewrite Hid.
Qed.

(** An entry without a trigger is passed over: [continue]. *)
Lemma pass_loop_skip count item rest s :
  within count item = true ->
  has_trigger item = false ->
  pass_loop env count (item :: rest) s = pass_loop env count rest s.
Proof.
  intros (n & Hid & Hn)%within_parse Hvalid. destruct item as [id cfg].
  unfold has_trigger in Hvalid. simpl in *.
  unfold pass_loop; simpl. unfold bind at 1, py_int. rewrite Hid. simpl.
  unfold ret. by rewrite Hn, Hvalid.
Qed.

(** An entry that binds adds its rule and the pass goes on. *)
Lemma pass_loop_bound count item rule rest s :
  within count item = true ->
  bound_rule env (snd item) = Some rule ->
  pass_loop env count (item :: rest) s = pass_loop env count rest (add_rules [rule] s).
Proof.
  intros (n & Hid & Hn)%within_parse. destruct item as [id cfg]. simpl in *.
  unfold bound_rule, pass_loop. simpl.
  destruct (cfg_trigger_event cfg) as [tname|] eqn:Htrig; simpl; [|done].
  destruct (resolve cfg _ tname) as [event|] eqn:Hevent; simpl; [|done].
  destruct (cfg_conditions cfg) as [cnames|] eqn:Hcn; simpl; [|done].
  destruct (mapM _ cnames) as [conds|] eqn:Hconds; simpl; [|done].
  destruct (cfg_actions cfg) as [anames|] eqn:Han; simpl; [|done].
  destruct (mapM _ anames) as [acts|] eqn:Hacts; simpl; [|done].
  intros [= <-].
  unfold bind at 1, py_int. rewrite Hid. simpl. unfold ret at 1. rewrite Hn.
  unfold _is_valid_automation_config. rewrite Htrig. simpl.
  unfold bind, lift. simpl.
  rewrite (create_step_resolved _ _ _ _ _ Hevent).
  rewrite (comprehension_resolved _ _ _ _ _ Hconds).
  rewrite (comprehension_resolved _ _ _ _ _ Hacts).
  reflexivity.
Qed.

(** An entry with a trigger that does not bind makes the pass raise a
    [KeyError], with no effect on the state. *)
Lemma pass_loop_unbound count item rest s :
  within count item = true ->
  has_trigger item = true ->
  bound_rule env (snd item) = None ->
  exists key, pass_loop env count (item :: rest) s = (Raise (KeyError key), s).
Proof.
  intros (n & Hid & Hn)%within_parse. destruct item as [id cfg]. simpl in *.
  unfold has_trigger, _is_valid_automation_config, bound_rule, pass_loop. simpl.
  destruct (cfg_trigger_event cfg) as [tname|] eqn:Htrig; simpl; [intros _|done].
  destruct (resolve cfg _ tname) as [event|] eqn:Hevent; simpl.
  2:{ intros _. exists tname. enter_entry Hid Hn Htrig.
      by rewrite (create_step_unresolved _ _ _ _ Hevent). }
  destruct (cfg_conditions cfg) as [cnames|] eqn:Hcn; simpl.
  2:{ intros _. exists CONDITIONS. enter_entry Hid Hn Htrig.
      by rewrite (create_step_resolved _ _ _ _ _ Hevent). }
  destruct (mapM _ cnames) as [conds|] eqn:Hconds; simpl.
  2:{ intros _. destruct (comprehension_unresolved _ _ _ s Hconds) as (k & _ & _ & Hrun).
      exists k. enter_entry Hid Hn Htrig. rewrite (create_step_resolved _ _ _ _ _ Hevent).
      by rewrite Hrun. }
  destruct (cfg_actions cfg) as [anames|] eqn:Han; simpl.
  2:{ intros _. exists ACTIONS. enter_entry Hid Hn Htrig.
      rewrite (create_step_resolved _ _ _ _ _ Hevent).
      by rewrite (comprehension_resolved _ _ _ _ _ Hconds). }
  destruct (mapM _ anames) as [acts|] eqn:Hacts; simpl; [done|].
  intros _. destruct (comprehension_unresolved _ _ _ s Hacts) as (k & _ & _ & Hrun).
  exists k. enter_entry Hid Hn Htrig. rewrite (create_step_resolved _ _ _ _ _ Hevent).
  rewrite (comprehension_resolved _ _ _ _ _ Hconds). by rewrite Hrun.
Qed.

(** The sibling of [_create_step]: [_apply_user_inputs] logs a name that
    no class has and goes on with the names that follow. *)
Lemma apply_user_inputs_unknown {C} (apply_step : string -> C -> string -> M W unit)
    name rest (classes : gmap string C) id s :
  classes !! name = None ->
  _apply_user_inputs apply_step (name :: rest) classes id s
  = _apply_user_inputs apply_step rest classes id
      (after_emit
         (Logged (LogError ("Automation step not found: " ++ name ++ " (ignored)"))) s).
Proof.
  intros Hname. unfold _apply_user_inputs. simpl.
  unfold bind at 1, try_except. by rewrite Hname.
Qed.

Lemma pass_loop_nil count s : pass_loop env count [] s = (Ret tt, s).
Proof. reflexivity. Qed.

(** The entries in front, all within the count and binding where they
    have a trigger, add their rules in the order of the entries; the pass
    then goes on with what follows them. *)
Lemma pass_loop_app count pre rest rules s :
  Forall (fun item => within count item = true) pre ->
  Forall2 (fun item rule => bound_rule env (snd item) = Some rule)
          (List.filter has_trigger pre) rules ->
  pass_loop env count (pre ++ rest) s = pass_loop env count rest (add_rules rules s).
Proof.
  intros Hin. revert rules s.
  induction Hin as [|item pre Hitem Hpre IH]; intros rules s; simpl.
  - intros ->%Forall2_nil_inv_l. by rewrite add_rules_nil.
  - destruct (has_trigger item) eqn:Hvalid.
    + intros (rule & rules' & Hrule & Hrules & ->)%Forall2_cons_inv_l.
      rewrite (pass_loop_bound _ _ _ _ _ Hitem Hrule).
      rewrite (IH _ _ Hrules). by rewrite add_rules_app.
    + intros Hrules. rewrite (pass_loop_skip _ _ _ _ Hitem Hvalid). by apply IH.
Qed.

Lemma create_automation_details_pass cfg s :
  automations_config s = Some cfg ->
  _create_automation_details env s
  = pass_loop env (default 0 (cfg_automations_count cfg))
              (default [] (cfg_automations cfg)) s.
Proof.
  intros Hcfg. unfold _create_automation_details, pass_loop, get_all_steps.
  unfold bind, config_get, bind, get, ret. simpl. rewrite Hcfg. simpl.
  by rewrite Hcfg.
Qed.

Lemma reached_within count items :
  Forall (fun item => within count item = true) (reached count items).
Proof.
  induction items as [|item items IH]; simpl; [constructor|].
  destruct (within count item) eqn:Hitem; by constructor.
Qed.

(** What follows the reached entries starts with an entry that is not
    within the count, if there is one at all. *)
Lemma reached_tail count items :
  exists tail, items = reached count items ++ tail
    /\ (tail = [] \/ exists item tail', tail = item :: tail'
                                      /\ within count item = false).
Proof.
  induction items as [|item items (tail & Heq & Htail)]; simpl.
  - exists []. split; [done|by left].
  - destruct (within count item) eqn:Hitem.
    + exists tail. simpl. split; [by f_equal|done].
    + exists (item :: items). split; [done|]. right. by exists item, items.
Qed.

Lemma not_within_beyond count item :
  is_Some (PyInt.parse (fst item)) ->
  within count item = false -> beyond count item = true.
Proof.
  unfold within, beyond. intros [n ->]. by destruct (n >? count).
Qed.

(** When the ids are stored in ascending order, the reached entries are
    all the entries within the count. *)
Lemma reached_ascending count items :
  ascending items ->
  reached count items = List.filter (within count) items.
Proof.
  induction items as [|item items IH]; simpl; [done|].
  intros [Hlater Hasc]. destruct (within count item) eqn:Hitem.
  - by rewrite IH.
  - clear IH Hasc. induction Hlater as [|later items Hlt _ IH]; simpl; [done|].
    rewrite <- IH. unfold within in *.
    destruct (PyInt.parse (fst item)) as [n|]; [|done].
    destruct (PyInt.parse (fst later)) as [m|]; [|done].
    destruct (Z.gtb_spec n count); [|done].
    destruct (Z.gtb_spec m count); [done|lia].
Qed.

(** C3, as the code has it: the pass binds exactly one rule for each
    entry with a trigger among the entries stored in front of the first
    entry whose id exceeds the count, in the order the table stores them;
    that entry ends the pass, so neither it nor any entry stored after
    it is bound.  When the ids are stored in ascending order, the entries
    in front of it are all the entries within the count.  The ids are
    numbers and the entries bound have their keys and resolvable names. *)
Theorem C3_one_rule_per_reached_entry cfg s :
  automations_config s = Some cfg ->
  let count := default 0 (cfg_automations_count cfg) in
  let items := default [] (cfg_automations cfg) in
  Forall (fun item => is_Some (PyInt.parse (fst item))) items ->
  Forall (fun item => is_Some (bound_rule env (snd item)))
         (List.filter has_trigger (reached count items)) ->
  (exists rules,
     _create_automation_details env s = (Ret tt, add_rules rules s)
     /\ Forall2 (fun item rule => bound_rule env (snd item) = Some rule)
                (List.filter has_trigger (reached count items)) rules)
  /\ (ascending items -> reached count items = List.filter (within count) items).
Proof.
  intros Hcfg count items Hids Hbound. split; [|apply reached_ascending].
  rewrite (create_automation_details_pass _ _ Hcfg). fold count items.
  assert (exists rules,
    Forall2 (fun item rule => bound_rule env (snd item) = Some rule)
            (List.filter has_trigger (reached count items)) rules) as [rules Hrules].
  { clear - Hbound. induction Hbound as [|item l [rule Hrule] _ [rules IH]].
    - exists []. constructor.
    - exists (rule :: rules). by constructor. }
  exists rules. split; [|done].
  destruct (reached_tail count items) as (tail & Heq & Htail).
  rewrite Heq at 1.
  rewrite (pass_loop_app _ _ _ _ _ (reached_within count items) Hrules).
  destruct Htail as [->|(item & tail' & -> & Hitem)]; [done|].
  apply pass_loop_beyond, not_within_beyond; [|done].
  rewrite Heq in Hids. apply Forall_app in Hids as [_ Hids].
  by apply Forall_cons in Hids as [Hid _].
Qed.

(** C10, as the code has it: when the pass comes to an entry with an id
    within the count and a trigger, that lacks the conditions or the
    actions, a [KeyError] leaves the pass; [automation_details] holds the
    rules of the entries stored in front and nothing of this entry or of
    those stored after it. *)
Theorem C10_reached_bare_entry_raises_KeyError cfg s pre id entry post :
  automations_config s = Some cfg ->
  let count := default 0 (cfg_automations_count cfg) in
  default [] (cfg_automations cfg) = pre ++ (id, entry) :: post ->
  Forall (fun item => within count item = true) pre ->
  Forall (fun item => is_Some (bound_rule env (snd item)))
         (List.filter has_trigger pre) ->
  within count (id, entry) = true ->
  cfg_trigger_event entry <> None ->
  cfg_conditions entry = None \/ cfg_actions entry = None ->
  exists key rules,
    _create_automation_details env s = (Raise (KeyError key), add_rules rules s)
    /\ Forall2 (fun item rule => bound_rule env (snd item) = Some rule)
               (List.filter has_trigger pre) rules.
Proof.
  intros Hcfg count Hitems Hpre Hbound Hin Htrig Hbare.
  rewrite (create_automation_details_pass _ _ Hcfg). fold count. rewrite Hitems.
  assert (exists rules,
    Forall2 (fun item rule => bound_rule env (snd item) = Some rule)
            (List.filter has_trigger pre) rules) as [rules Hrules].
  { clear - Hbound. induction Hbound as [|item l [rule Hrule] _ [rules IH]].
    - exists []. constructor.
    - exists (rule :: rules). by constructor. }
  rewrite (pass_loop_app _ _ _ _ _ Hpre Hrules).
  destruct (pass_loop_unbound count (id, entry) post (add_rules rules s))
    as [key Hkey]; [done| |  |by exists key, rules].
  - unfold has_trigger, _is_valid_automation_config. simpl. by apply bool_decide_eq_true.
  - unfold bound_rule. simpl. unfold get_all_steps.
    destruct (cfg_trigger_event entry); simpl; [|done].
    destruct (resolve entry _ _); simpl; [|done].
    destruct Hbare as [-> | Hact]; simpl; [done|].
    destruct (cfg_conditions entry); simpl; [|done].
    destruct (mapM _ _); simpl; [|done].
    by rewrite Hact.
Qed.

End Binder.

Section Loop.

Context {W : Type}.

Implicit Types (s : State W) (d : AutomationDetails W)
         (c : Step (ConditionClass W)) (a : Step (ActionClass W)).

Lemma emit_run (e : Event W) s : emit e s = (Ret tt, after_emit e s).
Proof. reflexivity. Qed.

Lemma call_run {A} (e : Event W) (f : W -> Outcome A * W) s :
  call e f s = (fst (f (world s)), after_call e (snd (f (world s))) s).
Proof.
  unfold call, bind. rewrite emit_run. simpl. by destruct (f (world s)).
Qed.

(** One turn of the loop of [_check_conditions]. *)
Lemma check_conditions_loop_cons d c rest s :
  _check_conditions_loop d (c :: rest) s
  = match evaluate (step_class c) (step_config c) (world s) with
    | (Ret true, w) =>
        _check_conditions_loop d rest
          (after_emit (condition_valid d) (after_call (Evaluate c) w s))
    | (Ret false, w) =>
        (Ret false, after_emit (condition_not_valid d c) (after_call (Evaluate c) w s))
    | (Raise e, w) => (Raise e, after_call (Evaluate c) w s)
    end.
Proof.
  simpl. unfold bind at 1, condition_evaluate. rewrite call_run.
  by destruct (evaluate _ _ _) as [[[|]|e] w].
Qed.

(** One turn of the loop of [_process_actions]. *)
Lemma process_actions_loop_cons d a rest s :
  _process_actions_loop d (a :: rest) s
  = match process (step_class a) (step_config a) (world (after_emit (running_action d a) s)) with
    | (Ret _, w) =>
        _process_actions_loop d rest
          (after_call (Process a) w (after_emit (running_action d a) s))
    | (Raise e, w) =>
        if is_Exception e
        then _process_actions_loop d rest
               (after_emit (action_error e)
                  (after_call (Process a) w (after_emit (running_action d a) s)))
        else (Raise e, after_call (Process a) w (after_emit (running_action d a) s))
    end.
Proof.
  simpl. unfold bind at 1, try_except, bind at 1, logger_debug.
  rewrite emit_run. unfold action_process. rewrite call_run.
  destruct (process _ _ _) as [[[]|e] w]; simpl; [done|].
  by destruct (is_Exception e).
Qed.

Lemma check_conditions_loop_app d pre rest s :
  _check_conditions_loop d (pre ++ rest) s
  = match _check_conditions_loop d pre s with
    | (Ret true, s') => _check_conditions_loop d rest s'
    | r => r
    end.
Proof.
  revert s. induction pre as [|c pre IH]; intros s; [done|].
  rewrite <- app_comm_cons, !check_conditions_loop_cons.
  destruct (evaluate _ _ _) as [[[|]|e] w]; [apply IH|done..].
Qed.

(** Conditions that all hold were each evaluated once, in their order,
    and nothing else was called. *)
Lemma check_conditions_loop_true d conds s s' :
  _check_conditions_loop d conds s = (Ret true, s') ->
  exists new, trace s' = trace s ++ new
    /\ evaluated new = conds /\ processed new = [] /\ logged_exceptions new = [].
Proof.
  revert s. induction conds as [|c conds IH]; intros s.
  - intros [= <-]. exists []. by rewrite app_nil_r.
  - rewrite check_conditions_loop_cons.
    destruct (evaluate _ _ _) as [[[|]|e] w]; [|done..].
    intros (new & -> & <- & Hp & Hl)%IH.
    exists (Evaluate c :: condition_valid d :: new). simpl.
    by rewrite <- !app_assoc.
Qed.

(** Actions that raise nothing but [Exception]s are each attempted once,
    in their order; what they raise is logged and the loop over them runs
    to its end. *)
Lemma process_actions_loop_all d acts s :
  Forall raises_only_Exception acts ->
  exists s' new,
    _process_actions_loop d acts s = (Ret tt, s')
    /\ trace s' = trace s ++ new
    /\ processed new = acts /\ evaluated new = []
    /\ logged_exceptions new = raised_by acts (world s).
Proof.
  intros Hacts. revert s.
  induction Hacts as [|a acts Ha _ IH]; intros s.
  - exists s, []. by rewrite app_nil_r.
  - rewrite process_actions_loop_cons. simpl.
    destruct (process _ _ (world s)) as [[[]|e] w] eqn:Hrun.
    + destruct (IH (after_call (Process a) w (after_emit (running_action d a) s)))
        as (s' & new & Hloop & Htrace & Hp & He & Hl).
      exists s', (running_action d a :: Process a :: new).
      rewrite Hloop, Htrace. simpl. rewrite Hp, He, Hl.
      by rewrite <- !app_assoc.
    + rewrite (Ha _ _ _ Hrun).
      destruct (IH (after_emit (action_error e)
                      (after_call (Process a) w (after_emit (running_action d a) s))))
        as (s' & new & Hloop & Htrace & Hp & He & Hl).
      exists s', (running_action d a :: Process a :: action_error e :: new).
      rewrite Hloop, Htrace. simpl. rewrite Hp, He, Hl.
      by rewrite <- !app_assoc.
Qed.

(** An action that raises something that is no [Exception] (a
    cancellation, say) ends the loop over the actions: the actions after it
    are not attempted. *)
Lemma process_actions_loop_not_Exception d a rest s e w :
  process (step_class a) (step_config a) (world s) = (Raise e, w) ->
  is_Exception e = false ->
  _process_actions_loop d (a :: rest) s
  = (Raise e, after_call (Process a) w (after_emit (running_action d a) s)).
Proof.
  intros Hrun He. rewrite process_actions_loop_cons. simpl. by rewrite Hrun, He.
Qed.

(** [_run_automation_body] once the conditions were checked. *)
Lemma run_automation_body_check d s :
  _run_automation_body d s
  = match _check_conditions d (after_emit (event_triggered d) s) with
    | (Ret true, s') => _process_actions d s'
    | (Ret false, s') => (Ret tt, s')
    | (Raise e, s') => (Raise e, s')
    end.
Proof.
  unfold _run_automation_body, bind at 1, logger_debug. rewrite emit_run.
  unfold bind. by destruct (_check_conditions _ _) as [[[|]|e] s'].
Qed.

(** One request to the trigger. *)
Lemma run_automation_loop_S fuel d s :
  _run_automation_loop (S fuel) d s
  = match trigger_next (trigger_event d) s with
    | (Ret (Some _), s1) =>
        match _run_automation_body d s1 with
        | (Ret _, s2) => _run_automation_loop fuel d s2
        | (Raise e, s2) => (Failed e, s2)
        end
    | (Ret None, s1) => (Returned, s1)
    | (Raise e, s1) => (Failed e, s1)
    end.
Proof. reflexivity. Qed.

Lemma check_conditions_nil d s :
  conditions d = [] -> _check_conditions d s = (Ret true, s).
Proof. unfold _check_conditions. by intros ->. Qed.


(** C5: the conditions in front have held and the next one returns
    false: [_check_conditions] returns false, [evaluate()] was called on
    the conditions up to that one, in the declared order, and on none
    after it, and no action was run. *)
Theorem C5_first_false_condition_stops d s s' pre c post w :
  conditions d = pre ++ c :: post ->
  _check_conditions_loop d pre (after_emit (event_triggered d) s) = (Ret true, s') ->
  evaluate (step_class c) (step_config c) (world s') = (Ret false, w) ->
  exists s'' new,
    _check_conditions d (after_emit (event_triggered d) s) = (Ret false, s'')
    /\ _run_automation_body d s = (Ret tt, s'')
    /\ trace s'' = trace s ++ new
    /\ evaluated new = pre ++ [c]
    /\ processed new = [].
Proof.
  intros Hconds Hpre Heval.
  destruct (check_conditions_loop_true _ _ _ _ Hpre) as (new & Htrace & He & Hp & _).
  assert (Hcheck : _check_conditions d (after_emit (event_triggered d) s)
                   = (Ret false, after_emit (condition_not_valid d c)
                                   (after_call (Evaluate c) w s'))).
  { unfold _check_conditions. rewrite Hconds, check_conditions_loop_app, Hpre.
    by rewrite check_conditions_loop_cons, Heval. }
  eexists _, (event_triggered d :: new ++ [Evaluate c; condition_not_valid d c]).
  split; [exact Hcheck|]. split; [by rewrite run_automation_body_check, Hcheck|].
  split; [|split].
  - simpl. rewrite Htrace. simpl. by rewrite <- !app_assoc.
  - unfold evaluated in *. simpl. rewrite omap_app, He. done.
  - unfold processed in *. simpl. rewrite omap_app, Hp. done.
Qed.

(** C7: the conditions in front have held and the next one raises: the
    exception leaves [_check_conditions] and the body of the loop, no
    action was run, nothing was logged as an error, and it ends
    [_run_automation]. *)
Theorem C7_condition_exception_propagates d s0 s s' pre c post e w fuel :
  trigger_next (trigger_event d) s0 = (Ret (Some tt), s) ->
  conditions d = pre ++ c :: post ->
  _check_conditions_loop d pre (after_emit (event_triggered d) s) = (Ret true, s') ->
  evaluate (step_class c) (step_config c) (world s') = (Raise e, w) ->
  exists s'' new,
    _check_conditions d (after_emit (event_triggered d) s) = (Raise e, s'')
    /\ _run_automation_body d s = (Raise e, s'')
    /\ trace s'' = trace s ++ new
    /\ evaluated new = pre ++ [c]
    /\ processed new = []
    /\ logged_exceptions new = []
    /\ _run_automation_loop (S fuel) d s0 = (Failed e, s'').
Proof.
  intros Hfire Hconds Hpre Heval.
  destruct (check_conditions_loop_true _ _ _ _ Hpre) as (new & Htrace & He & Hp & Hl).
  assert (Hcheck : _check_conditions d (after_emit (event_triggered d) s)
                   = (Raise e, after_call (Evaluate c) w s')).
  { unfold _check_conditions. rewrite Hconds, check_conditions_loop_app, Hpre.
    by rewrite check_conditions_loop_cons, Heval. }
  assert (Hbody : _run_automation_body d s = (Raise e, after_call (Evaluate c) w s')).
  { by rewrite run_automation_body_check, Hcheck. }
  eexists _, (event_triggered d :: new ++ [Evaluate c]).
  split; [exact Hcheck|]. split; [exact Hbody|].
  split; [|split; [|split; [|split]]].
  - simpl. rewrite Htrace. simpl. by rewrite <- !app_assoc.
  - unfold evaluated in *. simpl. rewrite omap_app, He. done.
  - unfold processed in *. simpl. rewrite omap_app, Hp. done.
  - unfold logged_exceptions in *. simpl. rewrite omap_app, Hl. done.
  - by rewrite run_automation_loop_S, Hfire, Hbody.
Qed.

(** The loop of a rule logs and calls into its steps: it leaves the
    attributes of the automation and the tasks alone. *)
Lemma same_attributes_refl s : same_attributes s s.
Proof. by repeat split. Qed.

Lemma same_attributes_trans s1 s2 s3 :
  same_attributes s1 s2 -> same_attributes s2 s3 -> same_attributes s1 s3.
Proof.
  intros (H1 & H2 & H3 & H4) (H1' & H2' & H3' & H4').
  repeat split; congruence.
Qed.

Lemma same_attributes_emit (e : Event W) s : same_attributes s (after_emit e s).
Proof. by repeat split. Qed.

Lemma same_attributes_call (e : Event W) w s : same_attributes s (after_call e w s).
Proof. by repeat split. Qed.

Lemma check_conditions_loop_frame d conds s :
  same_attributes s (snd (_check_conditions_loop d conds s)).
Proof.
  revert s. induction conds as [|c conds IH]; intros s.
  - apply same_attributes_refl.
  - rewrite check_conditions_loop_cons.
    destruct (evaluate _ _ _) as [[[|]|e] w]; simpl.
    + eapply same_attributes_trans; [|apply IH]. by repeat split.
    + by repeat split.
    + by repeat split.
Qed.

Lemma process_actions_loop_frame d acts s :
  same_attributes s (snd (_process_actions_loop d acts s)).
Proof.
  revert s. induction acts as [|a acts IH]; intros s.
  - apply same_attributes_refl.
  - rewrite process_actions_loop_cons.
    destruct (process _ _ _) as [[[]|e] w]; simpl.
    + eapply same_attributes_trans; [|apply IH]. by repeat split.
    + destruct (is_Exception e); simpl; [|by repeat split].
      eapply same_attributes_trans; [|apply IH]. by repeat split.
Qed.

Lemma run_automation_body_frame d s :
  same_attributes s (snd (_run_automation_body d s)).
Proof.
  rewrite run_automation_body_check.
  pose proof (check_conditions_loop_frame d (conditions d)
                (after_emit (event_triggered d) s)) as Hcheck.
  fold (_check_conditions d (after_emit (event_triggered d) s)) in Hcheck.
  destruct (_check_conditions d _) as [[[|]|e] s1]; simpl in *.
  - eapply same_attributes_trans; [|apply process_actions_loop_frame].
    eapply same_attributes_trans; [apply same_attributes_emit|exact Hcheck].
  - eapply same_attributes_trans; [apply same_attributes_emit|exact Hcheck].
  - eapply same_attributes_trans; [apply same_attributes_emit|exact Hcheck].
Qed.

Lemma run_automation_loop_frame fuel d s :
  same_attributes s (snd (_run_automation_loop fuel d s)).
Proof.
  revert s. induction fuel as [|fuel IH]; intros s.
  - apply same_attributes_refl.
  - rewrite run_automation_loop_S. unfold trigger_next. rewrite call_run.
    destruct (next_event _ _ _) as [[[[]|]|e] w]; simpl.
    + pose proof (run_automation_body_frame d
                    (after_call (NextEvent (trigger_event d)) w s)) as Hbody.
      destruct (_run_automation_body d _) as [[[]|e] s2]; simpl in *.
      * eapply same_attributes_trans; [|apply IH].
        eapply same_attributes_trans; [apply same_attributes_call|exact Hbody].
      * eapply same_attributes_trans; [apply same_attributes_call|exact Hbody].
    + by repeat split.
    + by repeat split.
Qed.

Lemma run_automation_frame fuel d s :
  same_attributes s (snd (_run_automation fuel d s)).
Proof.
  unfold _run_automation, logger_info. rewrite emit_run.
  eapply same_attributes_trans; [apply same_attributes_emit|].
  apply run_automation_loop_frame.
Qed.

End Loop.

Section LifeCycle.

Context {W : Type} (env : Env W).

Implicit Types (s : State W) (t : Task W) (tasks : list (Task W))
         (handles : list nat).

Lemma request_cancel_idemp t : request_cancel (request_cancel t) = request_cancel t.
Proof. unfold request_cancel. by destruct t as [d []]. Qed.

Lemma request_cancel_not_Pending t : task_status (request_cancel t) <> Pending.
Proof. unfold request_cancel. by destruct t as [d []]. Qed.

Lemma set_loop_tasks_same s : set_loop_tasks (loop_tasks s) s = s.
Proof. by destruct s. Qed.

(** [cancel()] on a task that is done, or on no task, changes nothing. *)
Lemma alter_request_cancel_done tasks h :
  (forall t, tasks !! h = Some t -> task_status t = Finished) ->
  alter request_cancel h tasks = tasks.
Proof.
  intros Hdone. apply list_eq. intros i. destruct (decide (h = i)) as [<-|Hne].
  - rewrite list_lookup_alter_eq. destruct (tasks !! h) as [t|] eqn:Ht; [|done].
    simpl. f_equal. unfold request_cancel. by rewrite (Hdone t eq_refl).
  - by rewrite list_lookup_alter_ne.
Qed.

(** The body of the loop of [stop()] on one task. *)
Lemma stop_one h s :
  (done <- task_done h ;; if negb done then task_cancel h else ret tt) s
  = (Ret tt, set_loop_tasks (alter request_cancel h (loop_tasks s)) s).
Proof.
  unfold bind, task_done, get, bind. simpl.
  destruct (loop_tasks s !! h) as [t|] eqn:Ht; simpl.
  - destruct (task_status t) eqn:Hst; simpl; try done.
    rewrite alter_request_cancel_done; [by rewrite set_loop_tasks_same|].
    intros t' Ht'. congruence.
  - rewrite alter_request_cancel_done; [by rewrite set_loop_tasks_same|].
    intros t' Ht'. congruence.
Qed.

Lemma stop_each handles s :
  for_each (fun task => done <- task_done task ;;
                        if negb done then task_cancel task else ret tt) handles s
  = (Ret tt, set_loop_tasks (cancel_all handles (loop_tasks s)) s).
Proof.
  revert s. induction handles as [|h handles IH]; intros s; simpl.
  - by rewrite set_loop_tasks_same.
  - unfold bind at 1. rewrite stop_one, IH. by destruct s.
Qed.

(** [stop()] never raises. *)
Lemma stop_run s :
  stop s = (Ret tt, match automation_tasks s with [] => s | _ => stopping s end).
Proof.
  unfold stop, bind at 1, get. simpl.
  destruct (automation_tasks s) as [|h handles] eqn:Hhandles; [done|].
  unfold bind at 1, logger_debug. rewrite emit_run.
  etransitivity; [apply (stop_each (h :: handles))|].
  unfold stopping. by rewrite Hhandles.
Qed.

Lemma lookup_cancel_all handles tasks i :
  cancel_all handles tasks !! i
  = (if decide (i ∈ handles) then request_cancel else id) <$> tasks !! i.
Proof.
  unfold cancel_all. revert tasks.
  induction handles as [|h handles IH]; intros tasks; cbn [foldl].
  - rewrite decide_False by apply not_elem_of_nil. by destruct (tasks !! i).
  - rewrite IH. destruct (decide (h = i)) as [<-|Hne].
    + rewrite list_lookup_alter_eq, (decide_True (P := h ∈ h :: handles)) by left.
      destruct (tasks !! h) as [t|]; simpl; [|done].
      case_decide; simpl; [by rewrite request_cancel_idemp|done].
    + rewrite list_lookup_alter_ne by done.
      destruct (decide (i ∈ handles)) as [Hin|Hout].
      * by rewrite decide_True by by right.
      * rewrite decide_False; [done|]. intros [->|]%elem_of_cons; done.
Qed.

Lemma cancel_all_idemp handles tasks :
  cancel_all handles (cancel_all handles tasks) = cancel_all handles tasks.
Proof.
  apply list_eq. intros i. rewrite !lookup_cancel_all.
  destruct (tasks !! i) as [t|]; simpl; [|done].
  case_decide; simpl; [by rewrite request_cancel_idemp|done].
Qed.

Lemma stopped_cancel_all s tasks :
  loop_tasks s = cancel_all (automation_tasks s) tasks -> stopped s.
Proof.
  intros Htasks h t Hin. rewrite Htasks, lookup_cancel_all, decide_True by done.
  destruct (tasks !! h) as [t0|]; simpl; [|done].
  intros [= <-]. apply request_cancel_not_Pending.
Qed.

Lemma stopped_no_tasks s : automation_tasks s = [] -> stopped s.
Proof. intros Hnone h t Hin. rewrite Hnone in Hin. by apply not_elem_of_nil in Hin. Qed.

(** The event loop keeps a stopped automation stopped: it only brings
    tasks to their end. *)
Lemma stopped_loop_step s s' : loop_step s s' -> stopped s -> stopped s'.
Proof.
  intros Hstep Hstopped.
  assert (Hfinish : forall s1, same_attributes s s1 -> forall h,
            stopped (set_loop_tasks (alter finish h (loop_tasks s1)) s1)).
  { intros s1 (_ & Hhandles & _ & Htasks) h i t Hin. simpl in *.
    rewrite Hhandles in Hin. rewrite Htasks.
    destruct (decide (h = i)) as [<-|Hne].
    - rewrite list_lookup_alter_eq. destruct (loop_tasks s !! h); [|done].
      by intros [= <-].
    - rewrite list_lookup_alter_ne by done. by apply Hstopped. }
  destruct Hstep as [h t fuel r s s1 _ _ Hrun _|h t s _ _].
  - apply Hfinish. pose proof (run_automation_frame fuel (task_coro t) s) as Hframe.
    by rewrite Hrun in Hframe.
  - apply Hfinish, same_attributes_refl.
Qed.

Lemma stopped_loop_steps s s' : loop_steps s s' -> stopped s -> stopped s'.
Proof.
  induction 1 as [|s1 s2 s3 Hstep _ IH]; [done|].
  intros Hstopped. by apply IH, (stopped_loop_step s1).
Qed.

(** C6: with the enable flag off, [restart()] raises [DisabledError]
    and the state is the one it was called in: [stop()] was not called,
    the tasks, the task list and the stored configuration are as they
    were. *)
Theorem C6_restart_disabled_raises s :
  ENABLE_AUTOMATIONS env = false ->
  restart env s = (Raise (DisabledError "Automations are disabled"), s).
Proof. intros Hflag. unfold restart. by rewrite Hflag. Qed.

(** What [stop()] does to a state. *)
Lemma stop_effect s :
  stop s = (Ret tt, snd (stop s))
  /\ automation_tasks (snd (stop s)) = automation_tasks s
  /\ automation_details (snd (stop s)) = automation_details s
  /\ automations_config (snd (stop s)) = automations_config s
  /\ loop_tasks (snd (stop s)) = cancel_all (automation_tasks s) (loop_tasks s).
Proof.
  rewrite stop_run. simpl. unfold stopping.
  destruct (automation_tasks s) as [|h handles] eqn:Hhandles; simpl;
    by rewrite ?Hhandles.
Qed.

(** C9: [stop()] called twice in a row returns twice without raising.
    The first call keeps [automation_tasks] and requests the cancellation
    of each task of that list that is not done, and of no other task;
    after either call no task of [automation_tasks] is left running
    without a cancellation request; the second call changes neither the
    tasks nor the attributes of the automation, and the event loop keeps
    the automation stopped afterwards. *)
Theorem C9_stop_twice s :
  exists s1 s2,
    stop s = (Ret tt, s1) /\ stop s1 = (Ret tt, s2)
    /\ automation_tasks s1 = automation_tasks s
    /\ (forall h, loop_tasks s1 !! h
                  = (if decide (h ∈ automation_tasks s) then request_cancel else id)
                      <$> loop_tasks s !! h)
    /\ stopped s1 /\ stopped s2
    /\ loop_tasks s2 = loop_tasks s1
    /\ automation_tasks s2 = automation_tasks s1
    /\ automation_details s2 = automation_details s1
    /\ automations_config s2 = automations_config s1
    /\ (forall s3, loop_steps s2 s3 -> stopped s3).
Proof.
  destruct (stop_effect s) as (Hrun1 & Hh1 & Hd1 & Hc1 & Ht1).
  destruct (stop_effect (snd (stop s))) as (Hrun2 & Hh2 & Hd2 & Hc2 & Ht2).
  set (s1 := snd (stop s)) in *. set (s2 := snd (stop s1)) in *.
  assert (Hstopped1 : stopped s1).
  { apply (stopped_cancel_all _ (loop_tasks s)). by rewrite Hh1. }
  assert (Hstopped2 : stopped s2).
  { apply (stopped_cancel_all _ (loop_tasks s1)). by rewrite Hh2. }
  exists s1, s2.
  split; [done|]. split; [done|]. split; [done|].
  split; [intros h; by rewrite Ht1, lookup_cancel_all|].
  split; [done|]. split; [done|].
  split; [rewrite Ht2, Hh1, Ht1; apply cancel_all_idemp|].
  split; [done|]. split; [done|]. split; [done|].
  intros s3 Hsteps. by apply (stopped_loop_steps s2).
Qed.

(** The tasks that the comprehension of [start()] creates. *)
Lemma create_tasks_run (details : list (AutomationDetails W)) s :
  comprehension create_task details s
  = (Ret (seq (length (loop_tasks s)) (length details)),
     set_loop_tasks (loop_tasks s ++ map new_task details) s).
Proof.
  revert s. induction details as [|d details IH]; intros s; simpl.
  - unfold ret. by rewrite app_nil_r, set_loop_tasks_same.
  - unfold bind at 1, create_task, bind at 1, get. simpl.
    unfold bind at 1. rewrite IH. simpl. unfold ret.
    rewrite length_app. simpl. rewrite Nat.add_1_r, <- app_assoc. by destruct s.
Qed.

Lemma lookup_new_tasks (details : list (AutomationDetails W)) tasks :
  Forall2 (fun h d => (tasks ++ map new_task details) !! h = Some (new_task d))
          (seq (length tasks) (length details)) details.
Proof.
  revert tasks. induction details as [|d details IH]; intros tasks; simpl.
  - constructor.
  - constructor; [apply list_lookup_middle; done|].
    specialize (IH (tasks ++ [new_task d])).
    rewrite length_app, <- app_assoc in IH. simpl in IH.
    by rewrite Nat.add_1_r in IH.
Qed.

(** C8, as the code has it: when the binding pass ends normally,
    [start()] creates one task for each element of [automation_details],
    in order, and no other; [automation_tasks] holds their handles, all
    different, and each task is pending on the loop of its rule. *)
Theorem C8_start_spawns_one_task_per_rule s s1 :
  _create_automation_details env s = (Ret tt, s1) ->
  exists s',
    start env s = (Ret tt, s')
    /\ automation_details s' = automation_details s1
    /\ loop_tasks s' = loop_tasks s1 ++ map new_task (automation_details s1)
    /\ automation_tasks s'
       = seq (length (loop_tasks s1)) (length (automation_details s1))
    /\ NoDup (automation_tasks s')
    /\ one_live_loop_per_rule s'.
Proof.
  intros Hpass.
  assert (Hlive : forall s',
    automation_details s' = automation_details s1 ->
    loop_tasks s' = loop_tasks s1 ++ map new_task (automation_details s1) ->
    automation_tasks s' = seq (length (loop_tasks s1)) (length (automation_details s1)) ->
    one_live_loop_per_rule s').
  { intros s' Hd Ht Hh. unfold one_live_loop_per_rule. rewrite Hd, Ht, Hh.
    eapply Forall2_impl; [apply lookup_new_tasks|].
    intros h d Hlookup. by exists (new_task d). }
  unfold start, bind at 1. rewrite Hpass.
  unfold bind at 1, get. simpl. unfold bind at 1. rewrite create_tasks_run.
  unfold bind at 1, modify. simpl. unfold bind, get. simpl.
  destruct (automation_details s1) as [|d details] eqn:Hdetails.
  - eexists. split; [reflexivity|]. simpl. rewrite Hdetails. simpl.
    repeat split; try done; [constructor|].
    apply Hlive; simpl; by rewrite ?Hdetails.
  - eexists. split; [reflexivity|]. simpl. rewrite Hdetails.
    repeat split; try done;
      [apply (NoDup_seq (length (loop_tasks s1)) (S (length details)))|].
    apply Hlive; simpl; by rewrite ?Hdetails.
Qed.

End LifeCycle.

(** ** The binding pass on the small installation *)

(** A table with a sound rule, an entry without a trigger, and two
    entries from the first over-count id on. *)
Lemma C3_one_rule_per_reached_entry_witness :
  (exists rules,
     _create_automation_details Example.env (Example.fresh Example.mixed)
     = (Ret tt, add_rules rules (Example.fresh Example.mixed))
     /\ Forall2 (fun item rule => bound_rule Example.env (snd item) = Some rule)
                [("1", Example.notify)] rules)
  /\ (ascending (default [] (cfg_automations Example.mixed)) ->
      reached 2 (default [] (cfg_automations Example.mixed))
      = List.filter (within 2) (default [] (cfg_automations Example.mixed))).
Proof.
  apply (C3_one_rule_per_reached_entry Example.env Example.mixed
           (Example.fresh Example.mixed)).
  - reflexivity.
  - repeat (apply Forall_cons; split; [by eexists|]). constructor.
  - repeat (apply Forall_cons; split; [by eexists|]). constructor.
Defined.

(** C3 fails as worded: an entry beyond the count stored in front of a
    sound entry within the count leaves that entry unbound, and two sound
    entries stored in descending order are bound in that order. *)
Lemma C3_counterexample :
  ~ binds_valid_entries_in_id_order Example.env (Example.fresh Example.beyond_first)
  /\ ~ binds_valid_entries_in_id_order Example.env (Example.fresh Example.descending).
Proof.
  split.
  - intros H. destruct (H _ eq_refl) as (entries & rules & Hperm & _ & Hbound & Hrun).
    assert (rules = []) as ->.
    { apply (f_equal (fun r => automation_details (snd r))) in Hrun. by simpl in Hrun. }
    apply Forall2_nil_inv_r in Hbound as ->.
    apply Permutation_nil in Hperm. discriminate Hperm.
  - intros H. destruct (H _ eq_refl) as (entries & rules & Hperm & Hasc & Hbound & Hrun).
    apply (f_equal (fun r => automation_details (snd r))) in Hrun.
    vm_compute in Hrun. subst rules.
    apply Permutation_sym, Permutation_length_2_inv in Hperm as [-> | ->].
    + destruct Hasc as [Hlater _]. apply Forall_cons in Hlater as [Hlt _].
      vm_compute in Hlt. discriminate Hlt.
    + apply Forall2_cons in Hbound as [Hrule _].
      vm_compute in Hrule. discriminate Hrule.
Qed.

(** A bare entry within the count, between two sound rules. *)
Lemma C10_reached_bare_entry_raises_KeyError_witness :
  exists key rules,
    _create_automation_details Example.env (Example.fresh Example.bare_within)
    = (Raise (KeyError key), add_rules rules (Example.fresh Example.bare_within))
    /\ Forall2 (fun item rule => bound_rule Example.env (snd item) = Some rule)
               [("1", Example.notify)] rules.
Proof.
  apply (C10_reached_bare_entry_raises_KeyError Example.env Example.bare_within
           (Example.fresh Example.bare_within)
           [("1", Example.notify)] "2"
           (Example.entry (Some "PeriodicCheck") None None)
           [("3", Example.notify)]).
  - reflexivity.
  - reflexivity.
  - apply Forall_cons; split; [reflexivity|constructor].
  - apply Forall_cons; split; [by eexists|constructor].
  - reflexivity.
  - discriminate.
  - left. reflexivity.
Defined.

(** C10 fails as worded: an entry with a trigger and no conditions or
    actions whose id exceeds the count ends the pass with no exception. *)
Lemma C10_counterexample :
  ~ bare_entry_raises_KeyError Example.env (Example.fresh Example.bare_beyond).
Proof.
  intros H.
  destruct (H _ ("1", Example.entry (Some "PeriodicCheck") None None) eq_refl)
    as [key Hkey].
  - by left.
  - reflexivity.
  - vm_compute in Hkey. discriminate Hkey.
Qed.

(** C1, on a table whose rule "1" names a trigger that no class has: the
    pass raises the [KeyError] of that name and leaves; rule "2", which
    would bind, is not bound. *)
Theorem C1_unresolvable_trigger_raises_KeyError :
  _create_automation_details Example.env (Example.fresh Example.ghost_trigger)
  = (Raise (KeyError "Ghost"), Example.fresh Example.ghost_trigger)
  /\ bound_rule Example.env Example.notify = Some Example.notify_rule.
Proof. split; reflexivity. Qed.

(** C2, on a rule with a known trigger whose first condition names no
    class: the pass raises the [KeyError] of that name; no rule is built
    from the condition and the action that do resolve. *)
Theorem C2_unresolvable_condition_raises_KeyError :
  _create_automation_details Example.env (Example.fresh Example.ghost_condition)
  = (Raise (KeyError "Ghost"), Example.fresh Example.ghost_condition)
  /\ automation_details
       (snd (_create_automation_details Example.env
               (Example.fresh Example.ghost_condition))) = [].
Proof. split; reflexivity. Qed.

(** ** The loop and the life cycle on the small installation *)


(** A condition that holds, one that does not, and one that would raise. *)
Lemma C5_first_false_condition_stops_witness :
  exists s'' new,
    _check_conditions Example.never_rule
      (after_emit (event_triggered Example.never_rule) Example.fired) = (Ret false, s'')
    /\ _run_automation_body Example.never_rule Example.fired = (Ret tt, s'')
    /\ trace s'' = trace Example.fired ++ new
    /\ evaluated new = [Example.step Example.NoCondition]
                       ++ [Example.step Example.NeverCondition]
    /\ processed new = [].
Proof.
  apply (C5_first_false_condition_stops Example.never_rule Example.fired
           (snd (_check_conditions_loop Example.never_rule
                   [Example.step Example.NoCondition]
                   (after_emit (event_triggered Example.never_rule) Example.fired)))
           [Example.step Example.NoCondition] (Example.step Example.NeverCondition)
           [Example.step Example.BrokenCondition] O).
  - reflexivity.
  - reflexivity.
  - reflexivity.
Defined.

(** A single condition, which raises. *)
Lemma C7_condition_exception_propagates_witness :
  exists s'' new,
    _check_conditions Example.broken_rule
      (after_emit (event_triggered Example.broken_rule) Example.fired)
    = (Raise (StepFailure "no data"), s'')
    /\ _run_automation_body Example.broken_rule Example.fired
       = (Raise (StepFailure "no data"), s'')
    /\ trace s'' = trace Example.fired ++ new
    /\ evaluated new = [] ++ [Example.step Example.BrokenCondition]
    /\ processed new = []
    /\ logged_exceptions new = []
    /\ _run_automation_loop 3 Example.broken_rule Example.idle
       = (Failed (StepFailure "no data"), s'').
Proof.
  apply (C7_condition_exception_propagates Example.broken_rule Example.idle Example.fired
           (after_emit (event_triggered Example.broken_rule) Example.fired)
           [] (Example.step Example.BrokenCondition) [] (StepFailure "no data") O 2).
  - reflexivity.
  - reflexivity.
  - reflexivity.
  - reflexivity.
Defined.

(** Two loops run when [restart()] is called with the flag off. *)
Lemma C6_restart_disabled_raises_witness :
  restart Example.disabled_env Example.running
  = (Raise (DisabledError "Automations are disabled"), Example.running).
Proof.
  apply (C6_restart_disabled_raises Example.disabled_env Example.running).
  reflexivity.
Defined.

(** Two rules, two tasks. *)
Lemma C8_start_spawns_one_task_per_rule_witness :
  exists s',
    start Example.env (Example.fresh Example.descending) = (Ret tt, s')
    /\ automation_details s'
       = automation_details
           (snd (_create_automation_details Example.env
                   (Example.fresh Example.descending)))
    /\ loop_tasks s'
       = loop_tasks (snd (_create_automation_details Example.env
                            (Example.fresh Example.descending)))
         ++ map new_task
              (automation_details
                 (snd (_create_automation_details Example.env
                         (Example.fresh Example.descending))))
    /\ automation_tasks s' = seq 0 2
    /\ NoDup (automation_tasks s')
    /\ one_live_loop_per_rule s'.
Proof.
  apply (C8_start_spawns_one_task_per_rule Example.env
           (Example.fresh Example.descending)
           (snd (_create_automation_details Example.env
                   (Example.fresh Example.descending)))).
  reflexivity.
Defined.

(** C8 fails as worded: the loop of a rule ends when a condition raises,
    and the rule is left with no live loop while nothing was stopped. *)
Lemma C8_counterexample :
  ~ always_one_live_loop_per_rule Example.env (Example.fresh Example.broken_config).
Proof.
  intros Hclaim.
  pose (s1 := snd (start Example.env (Example.fresh Example.broken_config))).
  pose (s' := snd (_run_automation 1 Example.broken_rule s1)).
  assert (Hsteps : loop_steps s1 (set_loop_tasks (alter finish O (loop_tasks s')) s')).
  { eapply loop_steps_step; [|apply loop_steps_refl].
    apply (task_ends O (new_task Example.broken_rule) 1
             (Failed (StepFailure "no data")) s1 s');
      [reflexivity|reflexivity|reflexivity|discriminate]. }
  specialize (Hclaim s1 _ eq_refl Hsteps).
  apply Forall2_cons_1 in Hclaim as [(t & Hlookup & _ & Hstatus) _].
  vm_compute in Hlookup. injection Hlookup as <-. by apply Hstatus.
Qed.

(** * More on the binding pass *)

Section Registry.

Context {C : Type} (get_name : C -> string).

Implicit Types (classes : list C) (m : gmap string C).

Lemma by_name_fold classes m k :
  foldl (fun m c => <[get_name c := c]> m) m classes !! k
  = match last (filter (fun c => get_name c = k) classes) with
    | Some c => Some c
    | None => m !! k
    end.
Proof.
  revert m. induction classes as [|c classes IH]; intros m; simpl; [done|].
  rewrite IH. destruct (decide (get_name c = k)) as [Hk|Hk].
  - rewrite filter_cons_True by done. rewrite last_cons.
    destruct (last (filter _ classes)); [done|]. by rewrite Hk, lookup_insert_eq.
  - rewrite filter_cons_False by done.
    destruct (last (filter _ classes)); [done|]. by rewrite lookup_insert_ne.
Qed.

(** X1: in the mapping that [get_all_steps] builds from a list of
    classes, a name gives the last class of the list that has this name;
    a name that no class has gives nothing. *)
Theorem X1_by_name_gives_last_class_of_that_name classes k :
  by_name get_name classes !! k = last (filter (fun c => get_name c = k) classes).
Proof.
  unfold by_name. rewrite by_name_fold, lookup_empty.
  by destruct (last _).
Qed.

Lemma by_name_Some classes k c :
  by_name get_name classes !! k = Some c -> get_name c = k /\ c ∈ classes.
Proof.
  unfold by_name. rewrite by_name_fold, lookup_empty.
  destruct (last _) as [c'|] eqn:Hlast; [|done]. intros [= <-].
  apply last_Some in Hlast as [l Hl].
  assert (Hin : c' ∈ filter (fun c => get_name c = k) classes).
  { rewrite Hl. apply elem_of_app. right. by left. }
  by apply list_elem_of_filter in Hin.
Qed.

Lemma resolve_by_name cfg classes name step :
  resolve cfg (by_name get_name classes) name = Some step ->
  get_name (step_class step) = name /\ step_as_configured get_name cfg step.
Proof.
  unfold resolve, step_as_configured.
  destruct (by_name get_name classes !! name) as [c|] eqn:Hc; simpl; [|done].
  intros [= <-]. simpl. apply by_name_Some in Hc as [-> _]. done.
Qed.

Lemma mapM_resolve_by_name cfg classes names steps :
  mapM (resolve cfg (by_name get_name classes)) names = Some steps ->
  map (fun step => get_name (step_class step)) steps = names
  /\ Forall (step_as_configured get_name cfg) steps.
Proof.
  intros Hall%mapM_Some. induction Hall as [|name step names steps Hstep _ [IH1 IH2]].
  - by split.
  - apply resolve_by_name in Hstep as [Hname Hcfg]. simpl.
    split; [by rewrite Hname, IH1|by constructor].
Qed.

End Registry.

Section BinderOutcome.

Context {W : Type} (env : Env W).

Implicit Types (s : State W) (item : string * AutomationConfig)
         (items : list (string * AutomationConfig)).

Lemma bound_rule_configured cfg (rule : AutomationDetails W) :
  bound_rule env cfg = Some rule -> configured_as cfg rule.
Proof.
  unfold bound_rule, get_all_steps, configured_as.
  destruct (cfg_trigger_event cfg) as [tname|]; simpl; [|done].
  destruct (resolve cfg _ tname) as [event|] eqn:Hevent; simpl; [|done].
  destruct (cfg_conditions cfg) as [cnames|]; simpl; [|done].
  destruct (mapM _ cnames) as [conds|] eqn:Hconds; simpl; [|done].
  destruct (cfg_actions cfg) as [anames|]; simpl; [|done].
  destruct (mapM _ anames) as [acts|] eqn:Hacts; simpl; [|done].
  intros [= <-]. simpl.
  apply resolve_by_name in Hevent as [Hname Hcfg].
  apply mapM_resolve_by_name in Hconds as [Hcn Hcc].
  apply mapM_resolve_by_name in Hacts as [Han Hac].
  unfold trigger_get_name. rewrite Hname.
  repeat split; try done.
  - f_equal. by rewrite <- Hcn.
  - f_equal. by rewrite <- Han.
Qed.

(** Whatever the outcome of the loop of the pass, it has added the rules
    of the first entries with a trigger among the reached ones, in their
    order, and changed nothing else; all of them when it ended normally. *)
Lemma pass_loop_outcome count items s :
  exists entries rules,
    snd (pass_loop env count items s) = add_rules rules s
    /\ entries `prefix_of` List.filter has_trigger (reached count items)
    /\ Forall2 (fun item rule => bound_rule env (snd item) = Some rule) entries rules
    /\ (fst (pass_loop env count items s) = Ret tt ->
        entries = List.filter has_trigger (reached count items)).
Proof.
  revert s. induction items as [|item items IH]; intros s.
  - exists [], []. rewrite pass_loop_nil, add_rules_nil. by repeat split.
  - simpl. destruct (within count item) eqn:Hin.
    + simpl. destruct (has_trigger item) eqn:Hvalid.
      * destruct (bound_rule env (snd item)) as [rule|] eqn:Hrule.
        -- rewrite (pass_loop_bound _ _ _ _ _ _ Hin Hrule).
           destruct (IH (add_rules [rule] s)) as (entries & rules & Hs & Hpre & Hb & Hall).
           exists (item :: entries), (rule :: rules).
           rewrite Hs, add_rules_app. split; [done|].
           split; [by apply prefix_cons|]. split; [by constructor|].
           intros Hret. by rewrite (Hall Hret).
        -- destruct (pass_loop_unbound env count item items s Hin Hvalid Hrule)
             as [key ->].
           exists [], []. rewrite add_rules_nil. split; [done|].
           split; [apply prefix_nil|]. split; [constructor|done].
      * rewrite (pass_loop_skip _ _ _ _ _ Hin Hvalid). apply IH.
    + exists [], []. rewrite add_rules_nil.
      assert (Hsame : snd (pass_loop env count (item :: items) s) = s).
      { destruct item as [id cfg]. unfold within in Hin. simpl in Hin.
        destruct (PyInt.parse id) as [n|] eqn:Hid.
        - rewrite pass_loop_beyond; [done|]. unfold beyond. simpl. rewrite Hid.
          by destruct (n >? count).
        - by rewrite pass_loop_not_numeric. }
      by repeat split.
Qed.

Lemma create_automation_details_no_config s :
  automations_config s = None ->
  _create_automation_details env s
  = (Raise (AttributeError "'NoneType' object has no attribute 'get'"), s).
Proof.
  intros Hcfg. unfold _create_automation_details, get_all_steps.
  unfold bind, config_get, bind, get. simpl. by rewrite Hcfg.
Qed.

(** The pass only ever adds rules. *)
Lemma create_automation_details_adds s :
  exists rules, snd (_create_automation_details env s) = add_rules rules s.
Proof.
  destruct (automations_config s) as [cfg|] eqn:Hcfg.
  - rewrite (create_automation_details_pass _ _ _ Hcfg).
    destruct (pass_loop_outcome (default 0 (cfg_automations_count cfg))
                (default [] (cfg_automations cfg)) s) as (_ & rules & Hs & _).
    by exists rules.
  - rewrite (create_automation_details_no_config _ Hcfg). exists [].
    by rewrite add_rules_nil.
Qed.


(** X3: every rule that the pass adds comes from an entry of the table
    and carries what that entry configures: the trigger, the conditions
    and the actions have the configured names, in the configured order,
    and each step got the sub-object stored under its name, or an empty
    configuration. *)
Theorem X3_added_rules_are_as_configured cfg s r s' :
  automations_config s = Some cfg ->
  _create_automation_details env s = (r, s') ->
  exists rules,
    automation_details s' = automation_details s ++ rules
    /\ Forall (fun rule => exists item,
                 item ∈ default [] (cfg_automations cfg)
                 /\ configured_as (snd item) rule) rules.
Proof.
  intros Hcfg Hrun.
  rewrite (create_automation_details_pass _ _ _ Hcfg) in Hrun.
  set (count := default 0 (cfg_automations_count cfg)) in *.
  set (items := default [] (cfg_automations cfg)) in *.
  destruct (pass_loop_outcome count items s) as (entries & rules & Hs & Hpre & Hb & _).
  rewrite Hrun in Hs. simpl in Hs. exists rules. split; [by rewrite Hs|].
  assert (Hsub : forall item, item ∈ entries -> item ∈ items).
  { intros item Hitem. destruct Hpre as [tail Htail].
    assert (Hf : item ∈ List.filter has_trigger (reached count items)).
    { rewrite Htail. apply elem_of_app. by left. }
    apply list_elem_of_In, filter_In in Hf as [Hr _]. apply list_elem_of_In in Hr.
    destruct (reached_tail count items) as (tail' & Heq & _).
    rewrite Heq. apply elem_of_app. by left. }
  clear Hpre Hs Hrun. induction Hb as [|item rule entries rules Hrule _ IH]; [constructor|].
  constructor.
  - exists item. split; [apply Hsub; by left|]. by apply bound_rule_configured.
  - apply IH. intros item' Hitem'. apply Hsub. by right.
Qed.

(** The name whose [KeyError] the comprehension raises is decided by the
    names alone. *)
Lemma comprehension_unresolved_key {C} cfg (classes : gmap string C) names :
  mapM (resolve cfg classes) names = None ->
  exists name, forall s,
    comprehension (fun name => _create_step (W := W) cfg name classes) names s
    = (Raise (KeyError name), s).
Proof.
  induction names as [|name names IH]; simpl; [done|].
  destruct (resolve cfg classes name) as [step|] eqn:Hstep; simpl.
  - destruct (mapM (resolve cfg classes) names) as [steps'|] eqn:Hrest; simpl; [done|].
    intros _. destruct (IH eq_refl) as [k Hrun]. exists k. intros s.
    unfold bind. rewrite (create_step_resolved _ _ _ _ _ Hstep). by rewrite Hrun.
  - intros _. exists name. intros s.
    unfold bind. by rewrite (create_step_unresolved _ _ _ _ Hstep).
Qed.

(** The [KeyError] that an entry with a trigger raises when it does not
    bind is decided by the entry and the registry alone. *)
Lemma pass_loop_unbound_key count item :
  within count item = true ->
  has_trigger item = true ->
  bound_rule env (snd item) = None ->
  exists key, forall rest s,
    pass_loop env count (item :: rest) s = (Raise (KeyError key), s).
Proof.
  intros (n & Hid & Hn)%within_parse. destruct item as [id cfg]. simpl in *.
  unfold has_trigger, _is_valid_automation_config, bound_rule, pass_loop. simpl.
  destruct (cfg_trigger_event cfg) as [tname|] eqn:Htrig; simpl; [intros _|done].
  destruct (resolve cfg _ tname) as [event|] eqn:Hevent; simpl.
  2:{ intros _. exists tname. intros rest s. enter_entry Hid Hn Htrig.
      by rewrite (create_step_unresolved _ _ _ _ Hevent). }
  destruct (cfg_conditions cfg) as [cnames|] eqn:Hcn; simpl.
  2:{ intros _. exists CONDITIONS. intros rest s. enter_entry Hid Hn Htrig.
      by rewrite (create_step_resolved _ _ _ _ _ Hevent). }
  destruct (mapM _ cnames) as [conds|] eqn:Hconds; simpl.
  2:{ intros _. destruct (comprehension_unresolved_key _ _ _ Hconds) as [k Hrun].
      exists k. intros rest s. enter_entry Hid Hn Htrig.
      rewrite (create_step_resolved _ _ _ _ _ Hevent). by rewrite Hrun. }
  destruct (cfg_actions cfg) as [anames|] eqn:Han; simpl.
  2:{ intros _. exists ACTIONS. intros rest s. enter_entry Hid Hn Htrig.
      rewrite (create_step_resolved _ _ _ _ _ Hevent).
      by rewrite (comprehension_resolved _ _ _ _ _ Hconds). }
  destruct (mapM _ anames) as [acts|] eqn:Hacts; simpl; [done|].
  intros _. destruct (comprehension_unresolved_key _ _ _ Hacts) as [k Hrun].
  exists k. intros rest s. enter_entry Hid Hn Htrig.
  rewrite (create_step_resolved _ _ _ _ _ Hevent).
  rewrite (comprehension_resolved _ _ _ _ _ Hconds). by rewrite Hrun.
Qed.

(** The loop of the pass on an entry followed by either of two tables on
    which it does the same. *)
Lemma pass_loop_cons_ext count item items1 items2 :
  (forall s, pass_loop env count items1 s = pass_loop env count items2 s) ->
  forall s, pass_loop env count (item :: items1) s = pass_loop env count (item :: items2) s.
Proof.
  intros Hext s. destruct item as [id cfg].
  destruct (within count (id, cfg)) eqn:Hin.
  - destruct (has_trigger (id, cfg)) eqn:Hvalid.
    + destruct (bound_rule env cfg) as [rule|] eqn:Hrule.
      * rewrite !(pass_loop_bound _ _ (id, cfg) rule) by done. apply Hext.
      * destruct (pass_loop_unbound_key count (id, cfg) Hin Hvalid Hrule) as [key Hkey].
        by rewrite !Hkey.
    + rewrite !(pass_loop_skip _ _ (id, cfg)) by done. apply Hext.
  - unfold within in Hin. simpl in Hin.
    destruct (PyInt.parse id) as [n|] eqn:Hid.
    + rewrite !pass_loop_beyond; [done| |]; unfold beyond; simpl; rewrite Hid;
        by destruct (n >? count).
    + by rewrite !pass_loop_not_numeric.
Qed.

(** X4: the entries stored after an entry whose id exceeds the count have
    no part in the pass, whatever they hold and whatever is stored in
    front: the pass does what it does on the table cut in front of that
    entry. *)
Theorem X4_table_is_cut_at_first_id_beyond_count count pre item rest s :
  beyond count item = true ->
  pass_loop env count (pre ++ item :: rest) s = pass_loop env count pre s.
Proof.
  intros Hbeyond. revert s. induction pre as [|head pre IH]; intros s.
  - simpl. by rewrite pass_loop_beyond.
  - simpl. by apply pass_loop_cons_ext.
Qed.

(** X5: a key of the table that is not a decimal number makes [int()]
    raise: when the entries stored in front are within the count and bind
    or have no trigger, the pass ends with that [ValueError];
    [automation_details] has the rules of the entries in front, and
    neither this entry nor those after it are bound. *)
Theorem X5_key_that_is_no_number_raises_ValueError cfg s pre id entry post :
  automations_config s = Some cfg ->
  let count := default 0 (cfg_automations_count cfg) in
  default [] (cfg_automations cfg) = pre ++ (id, entry) :: post ->
  Forall (fun item => within count item = true) pre ->
  Forall (fun item => is_Some (bound_rule env (snd item)))
         (List.filter has_trigger pre) ->
  PyInt.parse id = None ->
  exists rules,
    _create_automation_details env s = (Raise (ValueError id), add_rules rules s)
    /\ Forall2 (fun item rule => bound_rule env (snd item) = Some rule)
               (List.filter has_trigger pre) rules.
Proof.
  intros Hcfg count Hitems Hpre Hbound Hid.
  rewrite (create_automation_details_pass _ _ _ Hcfg). fold count. rewrite Hitems.
  assert (exists rules,
    Forall2 (fun item rule => bound_rule env (snd item) = Some rule)
            (List.filter has_trigger pre) rules) as [rules Hrules].
  { clear - Hbound. induction Hbound as [|item l [rule Hrule] _ [rules IH]].
    - exists []. constructor.
    - exists (rule :: rules). by constructor. }
  exists rules. split; [|done].
  rewrite (pass_loop_app _ _ _ _ _ _ Hpre Hrules). by apply pass_loop_not_numeric.
Qed.

End BinderOutcome.

Section UserInputs.

Context {W C : Type}.

Implicit Types (s : State W) (apply_step : string -> C -> string -> M W unit)
         (classes : gmap string C) (names : list string).

(** One turn of the loop of [_apply_user_inputs]. *)
Lemma apply_user_inputs_cons apply_step name names classes id s :
  _apply_user_inputs apply_step (name :: names) classes id s
  = match classes !! name with
    | Some c =>
        match apply_step name c id s with
        | (Ret _, s1) => _apply_user_inputs apply_step names classes id s1
        | (Raise e, s1) =>
            if is_KeyError e
            then _apply_user_inputs apply_step names classes id
                   (after_emit (step_not_found name) s1)
            else (Raise e, s1)
        end
    | None =>
        _apply_user_inputs apply_step names classes id
          (after_emit (step_not_found name) s)
    end.
Proof.
  unfold _apply_user_inputs. simpl. unfold bind at 1, try_except.
  destruct (classes !! name) as [c|]; [|done].
  destruct (apply_step name c id s) as [[[]|e] s1]; [done|].
  by destruct (is_KeyError e).
Qed.

(** An exception that leaves [_apply_user_inputs] is no [KeyError]: it
    was raised by the declaration of one of the named steps, and the state
    is the one that declaration left. *)
Lemma apply_user_inputs_raise apply_step names classes id s e :
  fst (_apply_user_inputs apply_step names classes id s) = Raise e ->
  is_KeyError e = false
  /\ exists pre name c post s0,
       names = pre ++ name :: post
       /\ classes !! name = Some c
       /\ apply_step name c id s0
          = (Raise e, snd (_apply_user_inputs apply_step names classes id s)).
Proof.
  revert s. induction names as [|name names IH]; intros s; [done|].
  rewrite apply_user_inputs_cons.
  assert (Hrest : forall s1,
    fst (_apply_user_inputs apply_step names classes id s1) = Raise e ->
    is_KeyError e = false
    /\ exists pre name' c post s0,
         name :: names = pre ++ name' :: post
         /\ classes !! name' = Some c
         /\ apply_step name' c id s0
            = (Raise e, snd (_apply_user_inputs apply_step names classes id s1))).
  { intros s1 (He & pre & name' & c & post & s0 & -> & Hc & Hrun)%IH.
    split; [done|]. by exists (name :: pre), name', c, post, s0. }
  destruct (classes !! name) as [c|] eqn:Hname; [|apply Hrest].
  destruct (apply_step name c id s) as [[[]|e'] s1] eqn:Hstep; [apply Hrest|].
  destruct (is_KeyError e') eqn:He'; [apply Hrest|].
  simpl. intros [= ->]. split; [done|]. by exists [], name, c, names, s.
Qed.

(** X6: [_apply_user_inputs] name by name.  A name that no class has is
    logged as not found and the loop goes on with the names that follow;
    so is a name whose declaration raises a [KeyError]; any other
    exception of a declaration ends the loop and leaves it, with the state
    the declaration left and nothing logged.  So no [KeyError] ever leaves
    [_apply_user_inputs], and what leaves it was raised by the declaration
    of a step that a class has.  (The same lookup in [_create_step] is not
    guarded.) *)
Theorem X6_apply_user_inputs_lets_no_KeyError_out apply_step names classes id s :
  (forall key,
      fst (_apply_user_inputs apply_step names classes id s) <> Raise (KeyError key))
  /\ (forall e,
        fst (_apply_user_inputs apply_step names classes id s) = Raise e ->
        is_KeyError e = false
        /\ exists pre name c post s0,
             names = pre ++ name :: post
             /\ classes !! name = Some c
             /\ apply_step name c id s0
                = (Raise e, snd (_apply_user_inputs apply_step names classes id s)))
  /\ (forall name rest, names = name :: rest ->
        _apply_user_inputs apply_step names classes id s
        = match classes !! name with
          | Some c =>
              match apply_step name c id s with
              | (Ret _, s1) => _apply_user_inputs apply_step rest classes id s1
              | (Raise e, s1) =>
                  if is_KeyError e
                  then _apply_user_inputs apply_step rest classes id
                         (after_emit (step_not_found name) s1)
                  else (Raise e, s1)
              end
          | None =>
              _apply_user_inputs apply_step rest classes id
                (after_emit (step_not_found name) s)
          end).
Proof.
  split; [|split].
  - intros key Hkey. by apply apply_user_inputs_raise in Hkey as [Hkey _].
  - intros e. apply apply_user_inputs_raise.
  - intros name rest ->. apply apply_user_inputs_cons.
Qed.

(** X7: when the declarations of the steps return normally and log no
    error, [_apply_user_inputs] returns normally and has logged one error
    for each name that no class has, in the order of the names. *)
Theorem X7_apply_user_inputs_logs_each_unknown_name apply_step names classes id s :
  (forall name c id s, exists s' new,
      apply_step name c id s = (Ret tt, s')
      /\ trace s' = trace s ++ new /\ logged_errors new = []) ->
  exists s' new,
    _apply_user_inputs apply_step names classes id s = (Ret tt, s')
    /\ trace s' = trace s ++ new
    /\ logged_errors new
       = map (fun name => ("Automation step not found: " ++ name ++ " (ignored)")%string)
             (filter (fun name => classes !! name = None) names).
Proof.
  intros Hstep. revert s. induction names as [|name names IH]; intros s.
  - exists s, []. by rewrite app_nil_r.
  - rewrite apply_user_inputs_cons.
    destruct (classes !! name) as [c|] eqn:Hname.
    + destruct (Hstep name c id s) as (s1 & new1 & -> & Ht1 & He1).
      destruct (IH s1) as (s' & new & Hrun & Ht & He).
      exists s', (new1 ++ new). split; [done|].
      split; [by rewrite Ht, Ht1, app_assoc|].
      rewrite filter_cons_False by by rewrite Hname.
      unfold logged_errors in *. by rewrite omap_app, He1, He.
    + destruct (IH (after_emit (step_not_found name) s)) as (s' & new & Hrun & Ht & He).
      exists s', (step_not_found name :: new). split; [done|].
      split; [rewrite Ht; simpl; by rewrite <- app_assoc|].
      rewrite filter_cons_True by done. simpl. by rewrite <- He.
Qed.

End UserInputs.

Section LoopOutcome.

Context {W : Type}.

Implicit Types (s : State W) (d : AutomationDetails W)
         (c : Step (ConditionClass W)) (a : Step (ActionClass W)).

(** Whatever the outcome of the check, [evaluate()] was called on the
    first conditions, in their order, and on all of them when the check
    returned true; no action was run. *)
Lemma check_conditions_loop_outcome d conds s :
  exists new,
    trace (snd (_check_conditions_loop d conds s)) = trace s ++ new
    /\ evaluated new `prefix_of` conds
    /\ processed new = []
    /\ (fst (_check_conditions_loop d conds s) = Ret true -> evaluated new = conds).
Proof.
  revert s. induction conds as [|c conds IH]; intros s.
  - exists []. simpl. by rewrite app_nil_r.
  - rewrite check_conditions_loop_cons.
    destruct (evaluate _ _ _) as [[[|]|e] w].
    + destruct (IH (after_emit (condition_valid d) (after_call (Evaluate c) w s)))
        as (new & Ht & Hpre & Hp & Hall).
      exists (Evaluate c :: condition_valid d :: new).
      split; [rewrite Ht; simpl; by rewrite <- !app_assoc|].
      split; [simpl; by apply prefix_cons|]. split; [done|].
      intros Hret. simpl. by rewrite (Hall Hret).
    + exists [Evaluate c; condition_not_valid d c]. simpl.
      split; [by rewrite <- app_assoc|]. split; [|done].
      apply prefix_cons, prefix_nil.
    + exists [Evaluate c]. simpl. split; [done|]. split; [|done].
      apply prefix_cons, prefix_nil.
Qed.

(** Whatever the outcome of the loop over the actions, [process()] was
    called on the first actions, in their order, on all of them when the
    loop ended normally; no condition was evaluated. *)
Lemma process_actions_loop_outcome d acts s :
  exists new,
    trace (snd (_process_actions_loop d acts s)) = trace s ++ new
    /\ processed new `prefix_of` acts
    /\ evaluated new = []
    /\ (fst (_process_actions_loop d acts s) = Ret tt -> processed new = acts)
    /\ Forall (fun e => is_Exception e = true) (logged_exceptions new).
Proof.
  revert s. induction acts as [|a acts IH]; intros s.
  - exists []. simpl. rewrite app_nil_r.
    split; [done|]. split; [done|]. split; [done|]. split; [done|constructor].
  - rewrite process_actions_loop_cons. simpl.
    destruct (process _ _ (world s)) as [[[]|e] w].
    + destruct (IH (after_call (Process a) w (after_emit (running_action d a) s)))
        as (new & Ht & Hpre & He & Hall & Hl).
      exists (running_action d a :: Process a :: new).
      split; [rewrite Ht; simpl; by rewrite <- !app_assoc|].
      split; [simpl; by apply prefix_cons|]. split; [done|].
      split; [|done]. intros Hret. simpl. by rewrite (Hall Hret).
    + destruct (is_Exception e) eqn:Hexc.
      * destruct (IH (after_emit (action_error e)
                        (after_call (Process a) w (after_emit (running_action d a) s))))
          as (new & Ht & Hpre & He & Hall & Hl).
        exists (running_action d a :: Process a :: action_error e :: new).
        split; [rewrite Ht; simpl; by rewrite <- !app_assoc|].
        split; [simpl; by apply prefix_cons|]. split; [done|].
        split; [|by constructor]. intros Hret. simpl. by rewrite (Hall Hret).
      * exists [running_action d a; Process a]. simpl.
        split; [by rewrite <- app_assoc|]. split; [apply prefix_cons, prefix_nil|].
        split; [done|]. split; [done|constructor].
Qed.

(** The calls of one firing. *)
Lemma run_automation_body_outcome d s :
  exists new,
    trace (snd (_run_automation_body d s)) = trace s ++ new
    /\ evaluated new `prefix_of` conditions d
    /\ processed new `prefix_of` actions d
    /\ (processed new <> [] -> evaluated new = conditions d).
Proof.
  rewrite run_automation_body_check.
  destruct (check_conditions_loop_outcome d (conditions d)
              (after_emit (event_triggered d) s)) as (new1 & Ht1 & Hpre1 & Hp1 & Hall1).
  fold (_check_conditions d (after_emit (event_triggered d) s)) in Ht1, Hall1.
  destruct (_check_conditions d _) as [[[|]|e] s1]; simpl in *.
  - destruct (process_actions_loop_outcome d (actions d) s1)
      as (new2 & Ht2 & Hpre2 & He2 & _ & _).
    unfold _process_actions in *.
    exists (event_triggered d :: new1 ++ new2).
    split; [rewrite Ht2, Ht1; simpl; by rewrite <- !app_assoc|].
    unfold evaluated, processed in *. simpl. rewrite !omap_app, He2, Hp1, app_nil_r.
    rewrite (Hall1 eq_refl). simpl.
    split; [reflexivity|]. split; [exact Hpre2|]. done.
  - exists (event_triggered d :: new1).
    split; [rewrite Ht1; simpl; by rewrite <- !app_assoc|].
    change (evaluated (event_triggered d :: new1)) with (evaluated new1).
    change (processed (event_triggered d :: new1)) with (processed new1).
    rewrite Hp1. split; [done|]. split; [apply prefix_nil|]. done.
  - exists (event_triggered d :: new1).
    split; [rewrite Ht1; simpl; by rewrite <- !app_assoc|].
    change (evaluated (event_triggered d :: new1)) with (evaluated new1).
    change (processed (event_triggered d :: new1)) with (processed new1).
    rewrite Hp1. split; [done|]. split; [apply prefix_nil|]. done.
Qed.

(** X8: on any firing, whatever the steps return or raise, the body
    first logs the event and checks the conditions, then runs actions: up
    to the end of the check [evaluate()] was called on the first
    conditions of the rule, each once and in the declared order, and no
    action was run; after it no condition is evaluated and [process()] is
    called on the first actions of the rule, each once and in the declared
    order, and on none unless the check returned true, in which case every
    condition was evaluated.  The attributes of the automation and the
    tasks stay as they are. *)
Theorem X8_firing_calls_steps_in_order_conditions_first d s :
  exists r1 s1 checks runs,
    _check_conditions d (after_emit (event_triggered d) s) = (r1, s1)
    /\ trace s1 = trace s ++ event_triggered d :: checks
    /\ trace (snd (_run_automation_body d s)) = trace s1 ++ runs
    /\ processed checks = []
    /\ evaluated checks `prefix_of` conditions d
    /\ evaluated runs = []
    /\ processed runs `prefix_of` actions d
    /\ (r1 = Ret true -> evaluated checks = conditions d)
    /\ (r1 <> Ret true -> runs = [])
    /\ same_attributes s (snd (_run_automation_body d s)).
Proof.
  pose proof (run_automation_body_frame d s) as Hframe.
  rewrite run_automation_body_check in *.
  destruct (check_conditions_loop_outcome d (conditions d)
              (after_emit (event_triggered d) s)) as (checks & Ht1 & Hpre1 & Hp1 & Hall1).
  fold (_check_conditions d (after_emit (event_triggered d) s)) in Ht1, Hall1.
  destruct (_check_conditions d _) as [r1 s1] eqn:Hcheck. simpl in Ht1, Hall1.
  assert (Htrace : trace s1 = trace s ++ event_triggered d :: checks).
  { rewrite Ht1. simpl. by rewrite <- app_assoc. }
  destruct r1 as [[|]|e].
  - destruct (process_actions_loop_outcome d (actions d) s1)
      as (runs & Ht2 & Hpre2 & He2 & _ & _).
    exists (Ret true), s1, checks, runs. simpl in *. unfold _process_actions in *.
    split; [done|]. split; [done|]. split; [done|]. split; [done|].
    split; [done|]. split; [done|]. split; [done|]. split; [done|].
    split; [done|exact Hframe].
  - exists (Ret false), s1, checks, []. simpl in *.
    split; [done|]. split; [done|]. split; [by rewrite app_nil_r|]. split; [done|].
    split; [done|]. split; [done|]. split; [apply prefix_nil|]. split; [done|].
    split; [done|exact Hframe].
  - exists (Raise e), s1, checks, []. simpl in *.
    split; [done|]. split; [done|]. split; [by rewrite app_nil_r|]. split; [done|].
    split; [done|]. split; [done|]. split; [apply prefix_nil|]. split; [done|].
    split; [done|exact Hframe].
Qed.

Lemma prefix_Forall_elem_of {A} (l1 l2 : list A) :
  l1 `prefix_of` l2 -> Forall (fun x => x ∈ l2) l1.
Proof.
  intros [tail ->]. apply Forall_forall. intros x Hx. apply elem_of_app. by left.
Qed.

Lemma run_automation_loop_outcome fuel d s :
  exists new,
    trace (snd (_run_automation_loop fuel d s)) = trace s ++ new
    /\ Forall (fun c => c ∈ conditions d) (evaluated new)
    /\ Forall (fun a => a ∈ actions d) (processed new).
Proof.
  revert s. induction fuel as [|fuel IH]; intros s.
  - exists []. simpl. rewrite app_nil_r. by repeat split.
  - rewrite run_automation_loop_S. unfold trigger_next. rewrite call_run.
    set (fired := NextEvent (trigger_event d)).
    destruct (next_event _ _ _) as [[[[]|]|e] w]; simpl.
    + destruct (run_automation_body_outcome d (after_call fired w s))
        as (new1 & Ht1 & He1 & Hp1 & _).
      apply prefix_Forall_elem_of in He1, Hp1.
      destruct (_run_automation_body d _) as [[[]|e] s2]; simpl in *.
      * destruct (IH s2) as (new2 & Ht2 & He2 & Hp2).
        exists (fired :: new1 ++ new2).
        split; [rewrite Ht2, Ht1; simpl; by rewrite <- !app_assoc|].
        change (evaluated (fired :: new1 ++ new2)) with (evaluated (new1 ++ new2)).
        change (processed (fired :: new1 ++ new2)) with (processed (new1 ++ new2)).
        unfold evaluated, processed in *. rewrite !omap_app.
        split; by apply Forall_app.
      * exists (fired :: new1).
        split; [rewrite Ht1; simpl; by rewrite <- !app_assoc|]. by split.
    + exists [fired]. by repeat split.
    + exists [fired]. by repeat split.
Qed.

(** X9: the loop of a rule, however long it runs and however it ends,
    only adds to the trace, calls [evaluate()] and [process()] on steps of
    its own rule only, and leaves the configuration, the rules, the task
    list and the tasks of the automation as they are. *)
Theorem X9_loop_calls_only_steps_of_its_rule fuel d s :
  exists new,
    trace (snd (_run_automation fuel d s)) = trace s ++ new
    /\ Forall (fun c => c ∈ conditions d) (evaluated new)
    /\ Forall (fun a => a ∈ actions d) (processed new)
    /\ same_attributes s (snd (_run_automation fuel d s)).
Proof.
  pose proof (run_automation_frame fuel d s) as Hframe.
  unfold _run_automation, logger_info in *. rewrite emit_run in *.
  set (starting := Logged (LogInfo ("Starting " ++ details_str d ++ " automation"))) in *.
  destruct (run_automation_loop_outcome fuel d (after_emit starting s))
    as (new & Ht & He & Hp).
  exists (starting :: new).
  split; [rewrite Ht; simpl; by rewrite <- app_assoc|].
  change (evaluated (starting :: new)) with (evaluated new).
  change (processed (starting :: new)) with (processed new).
  split; [done|]. split; [done|exact Hframe].
Qed.

(** The conditions all hold in any world. *)
Lemma check_conditions_loop_all_hold d conds s :
  Forall (fun c => forall w, exists w',
            evaluate (step_class c) (step_config c) w = (Ret true, w')) conds ->
  exists s', _check_conditions_loop d conds s = (Ret true, s').
Proof.
  intros Hconds. revert s. induction Hconds as [|c conds Hc _ IH]; intros s.
  - by exists s.
  - rewrite check_conditions_loop_cons. destruct (Hc (world s)) as [w ->]. apply IH.
Qed.

Lemma raised_by_none (acts : list (Step (ActionClass W))) w :
  Forall (fun a => forall w, exists w',
            process (step_class a) (step_config a) w = (Ret tt, w')) acts ->
  raised_by acts w = [].
Proof.
  intros Hacts. revert w. induction Hacts as [|a acts Ha _ IH]; intros w; [done|].
  simpl. destruct (Ha w) as [w' ->]. apply IH.
Qed.

(** X10: a rule whose trigger always has a next event, whose conditions
    always hold and whose actions never raise: after any number of events
    the loop is still running, and it has evaluated every condition and
    run every action exactly once for each event, in the declared order,
    and logged no error. *)
Theorem X10_each_event_runs_each_step_once d n s :
  (forall w, exists w',
      next_event (step_class (trigger_event d)) (step_config (trigger_event d)) w
      = (Ret (Some tt), w')) ->
  Forall (fun c => forall w, exists w',
            evaluate (step_class c) (step_config c) w = (Ret true, w')) (conditions d) ->
  Forall (fun a => forall w, exists w',
            process (step_class a) (step_config a) w = (Ret tt, w')) (actions d) ->
  exists s' new,
    _run_automation_loop n d s = (Waiting, s')
    /\ trace s' = trace s ++ new
    /\ evaluated new = concat (replicate n (conditions d))
    /\ processed new = concat (replicate n (actions d))
    /\ logged_exceptions new = [].
Proof.
  intros Hfire Hconds Hacts. revert s. induction n as [|n IH]; intros s.
  - exists s, []. by rewrite app_nil_r.
  - rewrite run_automation_loop_S. unfold trigger_next. rewrite call_run.
    set (fired := NextEvent (trigger_event d)).
    destruct (Hfire (world s)) as [w ->]. simpl.
    rewrite run_automation_body_check.
    set (s1 := after_emit (event_triggered d) (after_call fired w s)).
    destruct (check_conditions_loop_all_hold d (conditions d) s1 Hconds) as [s2 Hcheck].
    destruct (check_conditions_loop_true _ _ _ _ Hcheck) as (new1 & Ht1 & He1 & Hp1 & Hl1).
    unfold _check_conditions. rewrite Hcheck.
    assert (Honly : Forall raises_only_Exception (actions d)).
    { eapply Forall_impl; [exact Hacts|]. intros a Ha w0 e w' Hrun.
      destruct (Ha w0) as [w1 Hok]. congruence. }
    destruct (process_actions_loop_all d (actions d) s2 Honly)
      as (s3 & new2 & Hrun & Ht2 & Hp2 & He2 & Hl2).
    unfold _process_actions. rewrite Hrun.
    rewrite (raised_by_none _ _ Hacts) in Hl2.
    destruct (IH s3) as (s' & new3 & Hloop & Ht3 & He3 & Hp3 & Hl3).
    exists s', (fired :: event_triggered d :: new1 ++ new2 ++ new3).
    split; [done|].
    split; [rewrite Ht3, Ht2, Ht1; simpl; by rewrite <- !app_assoc|].
    change (evaluated (fired :: event_triggered d :: new1 ++ new2 ++ new3))
      with (evaluated (new1 ++ new2 ++ new3)).
    change (processed (fired :: event_triggered d :: new1 ++ new2 ++ new3))
      with (processed (new1 ++ new2 ++ new3)).
    change (logged_exceptions (fired :: event_triggered d :: new1 ++ new2 ++ new3))
      with (logged_exceptions (new1 ++ new2 ++ new3)).
    unfold evaluated, processed, logged_exceptions in *.
    rewrite !omap_app, He1, He2, He3, Hp1, Hp2, Hp3, Hl1, Hl2, Hl3. done.
Qed.

Lemma process_actions_loop_app d pre rest s :
  _process_actions_loop d (pre ++ rest) s
  = match _process_actions_loop d pre s with
    | (Ret _, s') => _process_actions_loop d rest s'
    | r => r
    end.
Proof.
  revert s. induction pre as [|a pre IH]; intros s; [done|].
  rewrite <- app_comm_cons, !process_actions_loop_cons. simpl.
  destruct (process _ _ (world s)) as [[[]|e] w]; [apply IH|].
  destruct (is_Exception e); [apply IH|done].
Qed.

(** X11: what an action raises that is no [Exception], the cancellation
    of the task for one, is not caught: after the actions in front were
    attempted, it leaves [_process_actions] and the body of the loop, the
    actions after it are not run, and [_run_automation] ends with it. *)
Theorem X11_cancellation_in_an_action_ends_the_loop d s0 s s1 s2 pre a post e w fuel :
  trigger_next (trigger_event d) s0 = (Ret (Some tt), s) ->
  _check_conditions d (after_emit (event_triggered d) s) = (Ret true, s1) ->
  actions d = pre ++ a :: post ->
  _process_actions_loop d pre s1 = (Ret tt, s2) ->
  process (step_class a) (step_config a) (world s2) = (Raise e, w) ->
  is_Exception e = false ->
  exists s3 new,
    _run_automation_body d s = (Raise e, s3)
    /\ trace s3 = trace s1 ++ new
    /\ processed new = pre ++ [a]
    /\ Forall (fun logged => is_Exception logged = true) (logged_exceptions new)
    /\ _run_automation_loop (S fuel) d s0 = (Failed e, s3).
Proof.
  intros Hfire Hcheck Hacts Hpre Hrun He.
  destruct (process_actions_loop_outcome d pre s1) as (new & Ht & _ & _ & Hall & Hl).
  rewrite Hpre in Ht, Hall. simpl in Ht, Hall. specialize (Hall eq_refl).
  assert (Hbody : _run_automation_body d s
                  = (Raise e, after_call (Process a) w
                                (after_emit (running_action d a) s2))).
  { rewrite run_automation_body_check, Hcheck. unfold _process_actions.
    rewrite Hacts, process_actions_loop_app, Hpre.
    by apply process_actions_loop_not_Exception. }
  eexists _, (new ++ [running_action d a; Process a]).
  split; [exact Hbody|]. split; [simpl; rewrite Ht; by rewrite <- !app_assoc|].
  split; [unfold processed in *; by rewrite omap_app, Hall|].
  split; [unfold logged_exceptions in *; rewrite omap_app; simpl;
          by rewrite app_nil_r|].
  by rewrite run_automation_loop_S, Hfire, Hbody.
Qed.

End LoopOutcome.

Section LifeCycleOutcome.

Context {W : Type} (env : Env W).

Implicit Types (s : State W) (t : Task W) (tasks : list (Task W))
         (handles : list nat).

Lemma length_cancel_all handles tasks :
  length (cancel_all handles tasks) = length tasks.
Proof.
  unfold cancel_all. revert tasks.
  induction handles as [|h handles IH]; intros tasks; simpl; [done|].
  by rewrite IH, length_alter.
Qed.

(** [start()] in terms of the pass. *)
Lemma start_run s :
  start env s
  = match _create_automation_details env s with
    | (Ret _, s1) => (Ret tt, started s1)
    | (Raise e, s1) => (Raise e, s1)
    end.
Proof.
  unfold start, bind at 1.
  destruct (_create_automation_details env s) as [[[]|e] s1]; [|done].
  unfold bind at 1, get. simpl. unfold bind at 1. rewrite create_tasks_run.
  unfold bind at 1, modify. simpl. unfold bind, get. simpl. unfold started.
  by destruct (automation_details s1).
Qed.

Lemma started_attributes s1 :
  automations_config (started s1) = automations_config s1
  /\ automation_details (started s1) = automation_details s1
  /\ loop_tasks (started s1) = loop_tasks s1 ++ map new_task (automation_details s1)
  /\ automation_tasks (started s1)
     = seq (length (loop_tasks s1)) (length (automation_details s1)).
Proof.
  unfold started.
  destruct (automation_details s1) eqn:Hd; simpl; by rewrite ?Hd.
Qed.

(** The tasks of the loop after [stop()]. *)
Lemma stop_tasks s :
  loop_tasks (snd (stop s)) = cancel_all (automation_tasks s) (loop_tasks s)
  /\ automation_tasks (snd (stop s)) = automation_tasks s
  /\ automation_details (snd (stop s)) = automation_details s
  /\ automations_config (snd (stop s)) = automations_config s
  /\ world (snd (stop s)) = world s.
Proof.
  rewrite stop_run. simpl. unfold stopping.
  destruct (automation_tasks s) as [|h handles] eqn:Hhandles; simpl; by rewrite ?Hhandles.
Qed.

(** X12: [stop()] returns normally from any state.  It requests the
    cancellation of the tasks of [automation_tasks] that are not done and
    of no other task of the loop, removes no task, and keeps
    [automation_tasks] itself, the rules and the configuration as they
    are. *)
Theorem X12_stop_cancels_its_tasks_and_no_other s :
  exists s',
    stop s = (Ret tt, s')
    /\ (forall h, loop_tasks s' !! h
                  = (if decide (h ∈ automation_tasks s) then request_cancel else id)
                      <$> loop_tasks s !! h)
    /\ length (loop_tasks s') = length (loop_tasks s)
    /\ automation_tasks s' = automation_tasks s
    /\ automation_details s' = automation_details s
    /\ automations_config s' = automations_config s.
Proof.
  destruct (stop_tasks s) as (Ht & Hh & Hd & Hc & _).
  exists (snd (stop s)). split; [by rewrite stop_run|].
  split; [intros h; by rewrite Ht, lookup_cancel_all|].
  split; [by rewrite Ht, length_cancel_all|]. done.
Qed.

(** X13: when [start()] raises, it is the binding pass that raised: no
    task was created, [automation_tasks] and the tasks of the loop are as
    they were, and the rules that the pass bound before it failed stay in
    [automation_details], without a loop. *)
Theorem X13_failed_start_spawns_nothing s e s' :
  start env s = (Raise e, s') ->
  _create_automation_details env s = (Raise e, s')
  /\ exists rules, s' = add_rules rules s.
Proof.
  rewrite start_run.
  destruct (create_automation_details_adds env s) as [rules Hrules].
  destruct (_create_automation_details env s) as [[[]|e'] s1]; [done|].
  intros [= -> ->]. split; [done|]. by exists rules.
Qed.

(** X14: [start()] called a second time, with no [restart()] or
    [stop()] in between, keeps the rules of the first call in
    [automation_details] and replaces [automation_tasks] by new tasks
    only: the tasks of the first call are still pending in the loop, none
    of them is in [automation_tasks] any more, and [stop()] leaves them
    running. *)
Theorem X14_second_start_forgets_the_first_loops s s1 s2 :
  start env s = (Ret tt, s1) ->
  start env s1 = (Ret tt, s2) ->
  automation_details s1 `prefix_of` automation_details s2
  /\ length (automation_tasks s2) = length (automation_details s2)
  /\ forall h, h ∈ automation_tasks s1 ->
       (h ∉ automation_tasks s2)
       /\ (exists d, loop_tasks s1 !! h = Some (new_task d))
       /\ loop_tasks (snd (stop s2)) !! h = loop_tasks s1 !! h.
Proof.
  rewrite !start_run.
  destruct (create_automation_details_adds env s) as [rules Hrules].
  destruct (_create_automation_details env s) as [[[]|e] sa]; [|done].
  intros [= <-]. simpl in Hrules.
  destruct (create_automation_details_adds env (started sa)) as [rules' Hrules'].
  destruct (_create_automation_details env (started sa)) as [[[]|e] sb]; [|done].
  intros [= <-]. simpl in Hrules'.
  destruct (started_attributes sa) as (_ & Hd1 & Ht1 & Hh1).
  destruct (started_attributes sb) as (_ & Hd2 & Ht2 & Hh2).
  assert (Hdb : automation_details sb = automation_details (started sa) ++ rules')
    by by rewrite Hrules'.
  assert (Htb : loop_tasks sb = loop_tasks (started sa)) by by rewrite Hrules'.
  split; [rewrite Hd2, Hdb; by exists rules'|].
  split; [by rewrite Hh2, Hd2, length_seq|].
  intros h Hh. rewrite Hh1 in Hh. apply elem_of_seq in Hh as [Hlo Hhi].
  assert (Hlt : (h < length (loop_tasks (started sa)))%nat).
  { rewrite Ht1, length_app, length_map. lia. }
  assert (Hout : h ∉ automation_tasks (started sb)).
  { rewrite Hh2, Htb. intros [Hge _]%elem_of_seq. lia. }
  split; [done|]. split.
  - rewrite Ht1, lookup_app_r by done.
    destruct (lookup_lt_is_Some_2 (map new_task (automation_details sa))
                (h - length (loop_tasks sa))) as [t Ht].
    { rewrite length_map. lia. }
    rewrite Ht. apply list_lookup_fmap_Some_1 in Ht as (d & -> & _). by exists d.
  - destruct (stop_tasks (started sb)) as (Hstop & _). rewrite Hstop.
    rewrite lookup_cancel_all, decide_False by done.
    rewrite Ht2, Htb, lookup_app_l by done.
    by destruct (loop_tasks (started sa) !! h).
Qed.

(** The state handed to the loader: stopped, with the stored
    configuration. *)
Lemma reloading_attributes s :
  automations_config (reloading env s) = Some (stored_config env)
  /\ automation_tasks (reloading env s) = automation_tasks s
  /\ automation_details (reloading env s) = automation_details s
  /\ loop_tasks (reloading env s) = cancel_all (automation_tasks s) (loop_tasks s)
  /\ stopped (reloading env s).
Proof.
  destruct (stop_tasks s) as (Ht & Hh & Hd & _ & _). unfold reloading.
  split; [done|]. split; [done|]. split; [done|]. split; [done|].
  apply (stopped_cancel_all _ (loop_tasks s)). simpl. by rewrite Ht, Hh.
Qed.

(** [restart()] with the flag on, in terms of the loader and [start()]. *)
Lemma restart_run s :
  ENABLE_AUTOMATIONS env = true ->
  restart env s
  = match load_and_save_user_inputs env (reloading env s) with
    | (Ret _, s3) => start env s3
    | (Raise e, s3) => (Raise e, s3)
    end.
Proof.
  intros Hflag. unfold restart, reloading. rewrite Hflag. simpl.
  unfold bind at 1. rewrite stop_run. simpl.
  unfold bind at 1, modify. unfold bind.
  by destruct (load_and_save_user_inputs env _) as [[[]|e] s3].
Qed.

(** X15: with the flag on, a [restart()] that returns normally has
    first requested the cancellation of the tasks it held, then handed
    [load_and_save_user_inputs] a state whose configuration is the stored
    one, then started from the state [s3] that the loader left:
    [automation_details] is what the loader left in it (nothing, when the
    loader emptied it as [init_user_inputs] does) followed by one rule for
    each entry with a trigger in front of the first entry not within the
    count, of the configuration the loader left; the loop has the tasks
    the loader left and one new pending task for each rule, whose handles
    are [automation_tasks]. *)
Theorem X15_restart_rebuilds_from_stored_configuration s s' :
  ENABLE_AUTOMATIONS env = true ->
  restart env s = (Ret tt, s') ->
  exists s3 cfg rules,
    load_and_save_user_inputs env (reloading env s) = (Ret tt, s3)
    /\ automations_config (reloading env s) = Some (stored_config env)
    /\ loop_tasks (reloading env s) = cancel_all (automation_tasks s) (loop_tasks s)
    /\ automations_config s3 = Some cfg
    /\ automation_details s' = automation_details s3 ++ rules
    /\ Forall2 (fun item rule => bound_rule env (snd item) = Some rule)
         (List.filter has_trigger
            (reached (default 0 (cfg_automations_count cfg))
                     (default [] (cfg_automations cfg))))
         rules
    /\ loop_tasks s' = loop_tasks s3 ++ map new_task (automation_details s')
    /\ automation_tasks s' = seq (length (loop_tasks s3)) (length (automation_details s')).
Proof.
  intros Hflag Hrun. rewrite (restart_run s Hflag) in Hrun.
  destruct (reloading_attributes s) as (Hc & _ & _ & Ht & _).
  destruct (load_and_save_user_inputs env (reloading env s)) as [[[]|e] s3]; [|done].
  rewrite start_run in Hrun.
  destruct (automations_config s3) as [cfg|] eqn:Hcfg.
  2:{ by rewrite (create_automation_details_no_config env s3 Hcfg) in Hrun. }
  pose proof (create_automation_details_pass env _ _ Hcfg) as Hpass.
  destruct (pass_loop_outcome env (default 0 (cfg_automations_count cfg))
              (default [] (cfg_automations cfg)) s3)
    as (entries & rules & Hs & _ & Hb & Hall).
  rewrite <- Hpass in Hs, Hall.
  destruct (_create_automation_details env s3) as [[[]|e] s4]; [|done].
  injection Hrun as <-. simpl in Hs, Hall. rewrite (Hall eq_refl) in Hb.
  destruct (started_attributes s4) as (_ & Hd & Hts & Hh).
  exists s3, cfg, rules. rewrite Hd, Hts, Hh, Hs. by repeat split.
Qed.

(** X16: [restart()] is not undone when it fails.  With the flag on, a
    [restart()] that raises had already run [stop()] and replaced the
    configuration by the stored one: either [load_and_save_user_inputs]
    raised, on that stopped state, or the binding pass raised from the
    state the loader left; then no task was created, and the state is the
    one the loader left with the rules bound before the failure. *)
Theorem X16_failed_restart_has_stopped_the_loops s e s' :
  ENABLE_AUTOMATIONS env = true ->
  restart env s = (Raise e, s') ->
  stopped (reloading env s)
  /\ automations_config (reloading env s) = Some (stored_config env)
  /\ loop_tasks (reloading env s) = cancel_all (automation_tasks s) (loop_tasks s)
  /\ (load_and_save_user_inputs env (reloading env s) = (Raise e, s')
      \/ exists s3 rules,
           load_and_save_user_inputs env (reloading env s) = (Ret tt, s3)
           /\ _create_automation_details env s3 = (Raise e, s')
           /\ s' = add_rules rules s3).
Proof.
  intros Hflag Hrun. rewrite (restart_run s Hflag) in Hrun.
  destruct (reloading_attributes s) as (Hc & _ & _ & Ht & Hstopped).
  split; [done|]. split; [done|]. split; [done|].
  destruct (load_and_save_user_inputs env (reloading env s)) as [[[]|e'] s3].
  - right. rewrite start_run in Hrun.
    destruct (create_automation_details_adds env s3) as [rules Hrules].
    destruct (_create_automation_details env s3) as [[[]|e'] s4] eqn:Hpass; [done|].
    simpl in Hrules. injection Hrun as -> ->. by exists s3, rules.
  - left. by injection Hrun as -> ->.
Qed.

End LifeCycleOutcome.

Section ResetConfig.

Context {W : Type} (env : Env W).

(** X17: after [reset_config()] a [restart()] runs nothing of its own.
    With the flag on, when [load_and_save_user_inputs], given the stopped
    state with the reset configuration, returns normally and leaves the
    table of automations empty and no rule, [restart()] returns normally
    with no rule and no task in [automation_tasks]: no task is created,
    the tasks of the loop are those the loader left, and the last record
    of the log is "No automation to start". *)
Theorem X17_restart_after_reset_config_runs_nothing (s s3 : State W) cfg :
  ENABLE_AUTOMATIONS env = true ->
  load_and_save_user_inputs env (reloading (reset_config env) s) = (Ret tt, s3) ->
  automations_config s3 = Some cfg ->
  default [] (cfg_automations cfg) = [] ->
  automation_details s3 = [] ->
  exists s',
    restart (reset_config env) s = (Ret tt, s')
    /\ automations_config (reloading (reset_config env) s)
       = Some {| cfg_automations_count := Some 0; cfg_automations := Some [] |}
    /\ loop_tasks (reloading (reset_config env) s)
       = cancel_all (automation_tasks s) (loop_tasks s)
    /\ automation_details s' = []
    /\ automation_tasks s' = []
    /\ loop_tasks s' = loop_tasks s3
    /\ last (trace s') = Some (Logged (LogDebug "No automation to start")).
Proof.
  intros Hflag Hload Hcfg Htable Hrules.
  destruct (reloading_attributes (reset_config env) s) as (Hc & _ & _ & Ht & _).
  assert (Hpass : _create_automation_details (reset_config env) s3 = (Ret tt, s3)).
  { rewrite (create_automation_details_pass _ _ _ Hcfg), Htable. apply pass_loop_nil. }
  rewrite (restart_run (reset_config env) s Hflag).
  change (load_and_save_user_inputs (reset_config env))
    with (load_and_save_user_inputs env).
  rewrite Hload, start_run, Hpass. eexists. split; [reflexivity|].
  split; [done|]. split; [done|].
  unfold started. rewrite Hrules. simpl.
  split; [done|]. split; [done|]. split; [by rewrite app_nil_r|].
  apply last_snoc.
Qed.

End ResetConfig.


Section DeclaredIds.










End DeclaredIds.

(** A table whose third entry is beyond the count: what follows it, here
    an entry that would raise, is never looked at. *)
Lemma X4_table_is_cut_at_first_id_beyond_count_witness :
  pass_loop Example.env 2
    ([("1", Example.notify); ("2", Example.entry None None None)]
       ++ ("3", Example.notify) :: [("4", Example.entry (Some "Ghost") None None)])
    Example.idle
  = pass_loop Example.env 2
      [("1", Example.notify); ("2", Example.entry None None None)] Example.idle.
Proof.
  apply (X4_table_is_cut_at_first_id_beyond_count Example.env 2
           [("1", Example.notify); ("2", Example.entry None None None)]
           ("3", Example.notify) [("4", Example.entry (Some "Ghost") None None)]
           Example.idle).
  reflexivity.
Defined.

(** The key "two" between two sound rules. *)
Lemma X5_key_that_is_no_number_raises_ValueError_witness :
  exists rules,
    _create_automation_details Example.env (Example.fresh Example.odd_key)
    = (Raise (ValueError "two"), add_rules rules (Example.fresh Example.odd_key))
    /\ Forall2 (fun item rule => bound_rule Example.env (snd item) = Some rule)
               [("1", Example.notify)] rules.
Proof.
  apply (X5_key_that_is_no_number_raises_ValueError Example.env Example.odd_key
           (Example.fresh Example.odd_key) [("1", Example.notify)] "two"
           Example.notify [("3", Example.notify)]).
  - reflexivity.
  - reflexivity.
  - apply Forall_cons; split; [reflexivity|constructor].
  - apply Forall_cons; split; [by eexists|constructor].
  - reflexivity.
Defined.


(** The rules of the table of two rules stored in descending order. *)
Lemma X3_added_rules_are_as_configured_witness :
  exists rules,
    automation_details
      (snd (_create_automation_details Example.env (Example.fresh Example.descending)))
    = automation_details (Example.fresh Example.descending) ++ rules
    /\ Forall (fun rule => exists item,
                 item ∈ default [] (cfg_automations Example.descending)
                 /\ configured_as (snd item) rule) rules.
Proof.
  apply (X3_added_rules_are_as_configured Example.env Example.descending
           (Example.fresh Example.descending)
           (fst (_create_automation_details Example.env (Example.fresh Example.descending)))
           (snd (_create_automation_details Example.env (Example.fresh Example.descending)))).
  - reflexivity.
  - reflexivity.
Defined.

(** Two known conditions and two names that no class has. *)
Lemma X7_apply_user_inputs_logs_each_unknown_name_witness :
  exists s' new,
    _apply_user_inputs Example.no_user_inputs
      ["NoCondition"; "Ghost"; "NeverCondition"; "Phantom"]
      Example.all_conditions "1" Example.idle = (Ret tt, s')
    /\ trace s' = trace Example.idle ++ new
    /\ logged_errors new
       = ["Automation step not found: Ghost (ignored)";
          "Automation step not found: Phantom (ignored)"].
Proof.
  apply (X7_apply_user_inputs_logs_each_unknown_name Example.no_user_inputs
           ["NoCondition"; "Ghost"; "NeverCondition"; "Phantom"]
           Example.all_conditions "1" Example.idle).
  intros name c id s. exists s, []. split; [reflexivity|]. split; [|reflexivity].
  symmetry. apply app_nil_r.
Defined.

(** Three events of the periodic check of the notifying rule. *)
Lemma X10_each_event_runs_each_step_once_witness :
  exists s' new,
    _run_automation_loop 3 Example.notify_rule Example.idle = (Waiting, s')
    /\ trace s' = trace Example.idle ++ new
    /\ evaluated new = concat (replicate 3 [Example.step Example.NoCondition])
    /\ processed new = concat (replicate 3 [Example.step Example.SendNotification])
    /\ logged_exceptions new = [].
Proof.
  apply (X10_each_event_runs_each_step_once Example.notify_rule 3 Example.idle).
  - intros w. exists w. reflexivity.
  - apply Forall_cons; split; [|constructor]. intros w. exists w. reflexivity.
  - apply Forall_cons; split; [|constructor]. intros w. exists (S w). reflexivity.
Defined.

(** A failing action, then the cancellation, then an action never run. *)
Lemma X11_cancellation_in_an_action_ends_the_loop_witness :
  exists s3 new,
    _run_automation_body Example.cancelled_rule Example.fired = (Raise CancelledError, s3)
    /\ trace s3
       = trace (snd (_check_conditions Example.cancelled_rule
                       (after_emit (event_triggered Example.cancelled_rule)
                          Example.fired))) ++ new
    /\ processed new = [Example.step Example.FailingAction]
                       ++ [Example.step Example.CancelledAction]
    /\ Forall (fun logged => is_Exception logged = true) (logged_exceptions new)
    /\ _run_automation_loop 1 Example.cancelled_rule Example.idle
       = (Failed CancelledError, s3).
Proof.
  apply (X11_cancellation_in_an_action_ends_the_loop Example.cancelled_rule
           Example.idle Example.fired
           (snd (_check_conditions Example.cancelled_rule
                   (after_emit (event_triggered Example.cancelled_rule) Example.fired)))
           (snd (_process_actions_loop Example.cancelled_rule
                   [Example.step Example.FailingAction]
                   (snd (_check_conditions Example.cancelled_rule
                           (after_emit (event_triggered Example.cancelled_rule)
                              Example.fired)))))
           [Example.step Example.FailingAction] (Example.step Example.CancelledAction)
           [Example.step Example.SendNotification] CancelledError O O).
  - reflexivity.
  - reflexivity.
  - reflexivity.
  - reflexivity.
  - reflexivity.
  - reflexivity.
Defined.

(** The table with a bare entry after a sound rule: the start fails with
    one rule bound. *)
Lemma X13_failed_start_spawns_nothing_witness :
  _create_automation_details Example.env (Example.fresh Example.bare_within)
  = (Raise (KeyError "conditions"),
     snd (start Example.env (Example.fresh Example.bare_within)))
  /\ exists rules,
       snd (start Example.env (Example.fresh Example.bare_within))
       = add_rules rules (Example.fresh Example.bare_within).
Proof.
  apply (X13_failed_start_spawns_nothing Example.env
           (Example.fresh Example.bare_within) (KeyError "conditions")
           (snd (start Example.env (Example.fresh Example.bare_within)))).
  reflexivity.
Defined.

(** The automation of two rules, started twice. *)
Lemma X14_second_start_forgets_the_first_loops_witness :
  automation_details Example.running
    `prefix_of` automation_details (snd (start Example.env Example.running))
  /\ length (automation_tasks (snd (start Example.env Example.running)))
     = length (automation_details (snd (start Example.env Example.running)))
  /\ forall h, h ∈ automation_tasks Example.running ->
       (h ∉ automation_tasks (snd (start Example.env Example.running)))
       /\ (exists d, loop_tasks Example.running !! h = Some (new_task d))
       /\ loop_tasks (snd (stop (snd (start Example.env Example.running)))) !! h
          = loop_tasks Example.running !! h.
Proof.
  apply (X14_second_start_forgets_the_first_loops Example.env
           (Example.fresh Example.descending) Example.running
           (snd (start Example.env Example.running))).
  - vm_compute. reflexivity.
  - vm_compute. reflexivity.
Defined.

(** The running automation of two rules restarts on the same stored
    table. *)
Lemma X15_restart_rebuilds_from_stored_configuration_witness :
  exists s3 cfg rules,
    load_and_save_user_inputs Example.stored_descending
      (reloading Example.stored_descending Example.running) = (Ret tt, s3)
    /\ automations_config (reloading Example.stored_descending Example.running)
       = Some (stored_config Example.stored_descending)
    /\ loop_tasks (reloading Example.stored_descending Example.running)
       = cancel_all (automation_tasks Example.running) (loop_tasks Example.running)
    /\ automations_config s3 = Some cfg
    /\ automation_details (snd (restart Example.stored_descending Example.running))
       = automation_details s3 ++ rules
    /\ Forall2 (fun item rule => bound_rule Example.stored_descending (snd item) = Some rule)
         (List.filter has_trigger
            (reached (default 0 (cfg_automations_count cfg))
                     (default [] (cfg_automations cfg))))
         rules
    /\ loop_tasks (snd (restart Example.stored_descending Example.running))
       = loop_tasks s3
         ++ map new_task
              (automation_details (snd (restart Example.stored_descending Example.running)))
    /\ automation_tasks (snd (restart Example.stored_descending Example.running))
       = seq (length (loop_tasks s3))
             (length (automation_details
                        (snd (restart Example.stored_descending Example.running)))).
Proof.
  apply (X15_restart_rebuilds_from_stored_configuration Example.stored_descending
           Example.running (snd (restart Example.stored_descending Example.running))).
  - reflexivity.
  - vm_compute. reflexivity.
Defined.

(** The running automation of two rules restarts on a stored table whose
    first rule names an unknown trigger. *)
Lemma X16_failed_restart_has_stopped_the_loops_witness :
  stopped (reloading Example.stored_ghost Example.running)
  /\ automations_config (reloading Example.stored_ghost Example.running)
     = Some (stored_config Example.stored_ghost)
  /\ loop_tasks (reloading Example.stored_ghost Example.running)
     = cancel_all (automation_tasks Example.running) (loop_tasks Example.running)
  /\ (load_and_save_user_inputs Example.stored_ghost
        (reloading Example.stored_ghost Example.running)
      = (Raise (KeyError "Ghost"), snd (restart Example.stored_ghost Example.running))
      \/ exists s3 rules,
           load_and_save_user_inputs Example.stored_ghost
             (reloading Example.stored_ghost Example.running) = (Ret tt, s3)
           /\ _create_automation_details Example.stored_ghost s3
              = (Raise (KeyError "Ghost"),
                 snd (restart Example.stored_ghost Example.running))
           /\ snd (restart Example.stored_ghost Example.running) = add_rules rules s3).
Proof.
  apply (X16_failed_restart_has_stopped_the_loops Example.stored_ghost
           Example.running (KeyError "Ghost")
           (snd (restart Example.stored_ghost Example.running))).
  - reflexivity.
  - vm_compute. reflexivity.
Defined.

(** The running automation of two rules restarts after the reset. *)
Lemma X17_restart_after_reset_config_runs_nothing_witness :
  exists s',
    restart (reset_config Example.stored_descending) Example.running = (Ret tt, s')
    /\ automations_config (reloading (reset_config Example.stored_descending)
                             Example.running)
       = Some {| cfg_automations_count := Some 0; cfg_automations := Some [] |}
    /\ loop_tasks (reloading (reset_config Example.stored_descending) Example.running)
       = cancel_all (automation_tasks Example.running) (loop_tasks Example.running)
    /\ automation_details s' = []
    /\ automation_tasks s' = []
    /\ loop_tasks s'
       = loop_tasks (set_automation_details []
                       (reloading (reset_config Example.stored_descending)
                          Example.running))
    /\ last (trace s') = Some (Logged (LogDebug "No automation to start")).
Proof.
  apply (X17_restart_after_reset_config_runs_nothing Example.stored_descending
           Example.running
           (set_automation_details []
              (reloading (reset_config Example.stored_descending) Example.running))
           {| cfg_automations_count := Some 0; cfg_automations := Some [] |}).
  - reflexivity.
  - reflexivity.
  - vm_compute. reflexivity.
  - reflexivity.
  - reflexivity.
Defined.
